(** * Event confirmation pipeline: webhook receiver, event processor, RPC client

    A shallow embedding of the three core modules of the repository,
    - [src/webhooks/event_processor.py]  (module [Processor]),
    - [src/webhooks/receiver.py]         (module [Receiver]),
    - [src/blockchain/rpc_client.py]     (module [Rpc]),
    followed by the properties of the specification that were checked
    against them.

    Conventions of the embedding.
    - A persisted JSON document is an [option]: [None] stands for a file that
      is missing or does not parse, the case in which every [_load_*] method
      of the source falls back to its default document.
    - Every [_save_*] method of the source catches the write error and only
      logs it.  How a write ends is decided by the environment: the state
      carries [io_faults], one [write_outcome] per future write; when the
      list is exhausted all later writes succeed.  [Path.write_text] opens
      the file for writing, which empties it, and then writes: a write that
      fails at [open] leaves the file as it was, a write that fails after
      [open] leaves an empty file, which every [_load_*] method reads back
      as its default document.
    - Documents and payloads are typed as the code writes them (the files
      are created and rewritten by these classes only); JSON of another
      shape is outside the embedding.
    - [datetime.utcnow().isoformat()] is the argument [now].
    - Python integers are [Z].  A finite float is a rational: the
      time-outs and the backoff factor of the RPC client are values of [Q]
      and their comparisons are exact.  Float arithmetic is not: the power
      [backoff_factor ** attempt] rounds and can raise [OverflowError], so
      it is a parameter, [float_pow], of the RPC client's embedding.
    - [asyncio.create_task] only schedules: a method that calls it takes
      whether an event loop is running and returns, next to its result and
      the state, the tasks it has created; [run_tasks] is the loop running
      them later. *)

From Stdlib Require Import Ascii String ZArith QArith Lia.
From stdpp Require Import gmap strings list.

Open Scope Z_scope.
Open Scope string_scope.

(** ** JSON values kept as opaque payload *)

#[local] Set Warnings "-register-all".

Inductive json : Type :=
| JNull
| JBool (b : bool)
| JNum (z : Z)
| JStr (s : string)
| JArr (l : list json)
| JObj (fields : list (string * json)).

(** [d.get(k)] on a JSON object held as an association list. *)
Fixpoint assoc_get {A : Type} (k : string) (d : list (string * A)) : option A :=
  match d with
  | [] => None
  | (k', v) :: d' => if String.eqb k' k then Some v else assoc_get k d'
  end.

(** [k in d] *)
Definition has_key {A : Type} (k : string) (d : list (string * A)) : bool :=
  match assoc_get k d with Some _ => true | None => false end.

(** [x in l] for a list of strings *)
Fixpoint str_in (x : string) (l : list string) : bool :=
  match l with
  | [] => false
  | y :: l' => if String.eqb y x then true else str_in x l'
  end.

(** How one [Path.write_text] ends. *)
Inductive write_outcome : Type :=
| Written       (* the text is in the file *)
| Refused       (* [open] raises: the file is as it was *)
| Truncated.    (* [open] has emptied the file, then the write raises: the
                   file holds no more than a part of the text *)

(** The write performed by [Path.write_text] inside a [try]: the next entry of
    the fault oracle decides how it ends.  A file that is empty or holds a
    part of the text does not parse. *)
Definition write_file {A : Type} (faults : list write_outcome) (old : option A) (new : A)
  : option A * list write_outcome :=
  match faults with
  | Written :: rest => (Some new, rest)
  | Refused :: rest => (old, rest)
  | Truncated :: rest => (None, rest)
  | [] => (Some new, [])
  end.

(** The next write goes through. *)
Definition next_write_ok (faults : list write_outcome) : bool :=
  match faults with
  | Refused :: _ | Truncated :: _ => false
  | _ => true
  end.

(** No write to come leaves an emptied file behind. *)
Definition never_truncates (faults : list write_outcome) : bool :=
  forallb (fun o => match o with Truncated => false | _ => true end) faults.

(** ** src/webhooks/event_processor.py *)

Module Processor.

(** [class TradeStatus(str, Enum)]: the trade record stores the [.value]
    strings. *)
Definition PENDING : string := "pending".
Definition CONFIRMED : string := "confirmed".
Definition COMPLETED : string := "completed".
Definition FAILED : string := "failed".

Definition FINAL_CONFIRMATION : string := "final_confirmation".

Record Event : Type := mkEvent {
  event_id : string;
  trade_id : string;
  tx_hash : string;
  confirmation_count : Z;
  timestamp : string;
  event_type : string;
  data : list (string * json);
  retry_count : Z
}.

Record DeadLetterEvent : Type := mkDeadLetterEvent {
  dl_event_id : string;
  dl_trade_id : string;
  error_message : string;
  dl_timestamp : string;
  dl_retry_count : Z;
  original_event : Event          (* [asdict(event)] *)
}.

(** One entry of [trade["events"]]. *)
Record EventSummary : Type := mkEventSummary {
  s_event_id : string;
  s_tx_hash : string;
  s_confirmation_count : Z;
  s_timestamp : string;
  s_event_type : string
}.

(** One value of [bot_data["trades"]]. *)
Record Trade : Type := mkTrade {
  status : string;
  created_at : string;
  confirmations : Z;
  events : list EventSummary;
  confirmed_at : option string;
  completed_at : option string
}.

(** Python exceptions seen by the consumer loop: an ordinary exception with
    its message, or tenacity's [RetryError] wrapping the last attempt. *)
Inductive exn : Type :=
| PyException (msg : string)
| RetryError (last_attempt : exn).

(** [str(error)] for an ordinary exception. *)
Definition exn_str (e : exn) : string :=
  match e with
  | PyException msg => msg
  | RetryError _ => "RetryError"
  end.

(** The fields of [EventProcessor] that are set in [__init__]. *)
Record Config : Type := mkConfig {
  confirmation_threshold : Z;
  max_retries : Z
}.

(** Constructor defaults. *)
Definition default_config : Config :=
  {| confirmation_threshold := 3; max_retries := 5 |}.

(** The mutable state an [EventProcessor] works on: the two files, the
    queue, the in-memory map of processed events and the write oracle. *)
Record State : Type := mkState {
  bot_data_file : option (gmap string Trade);
  dlq_file : option (list DeadLetterEvent);
  event_queue : list Event;
  processed_events : gmap string Event;
  io_faults : list write_outcome
}.

Definition _load_bot_data (st : State) : gmap string Trade :=
  match bot_data_file st with
  | Some trades => trades
  | None => ∅
  end.

Definition _save_bot_data (st : State) (trades : gmap string Trade) : State :=
  let '(f, rest) := write_file (io_faults st) (bot_data_file st) trades in
  {| bot_data_file := f; dlq_file := dlq_file st;
     event_queue := event_queue st;
     processed_events := processed_events st; io_faults := rest |}.

Definition _load_dlq (st : State) : list DeadLetterEvent :=
  match dlq_file st with
  | Some failed_events => failed_events
  | None => []
  end.

Definition _save_dlq (st : State) (failed_events : list DeadLetterEvent) : State :=
  let '(f, rest) := write_file (io_faults st) (dlq_file st) failed_events in
  {| bot_data_file := bot_data_file st; dlq_file := f;
     event_queue := event_queue st;
     processed_events := processed_events st; io_faults := rest |}.

(** [await self.event_queue.put(event)] *)
Definition enqueue_event (event : Event) (st : State) : State :=
  {| bot_data_file := bot_data_file st; dlq_file := dlq_file st;
     event_queue := event_queue st ++ [event];
     processed_events := processed_events st; io_faults := io_faults st |}.

(** The record created for a [trade_id] seen for the first time. *)
Definition new_trade (now : string) : Trade :=
  {| status := PENDING; created_at := now; confirmations := 0;
     events := []; confirmed_at := None; completed_at := None |}.

Definition summary_of (event : Event) : EventSummary :=
  {| s_event_id := event_id event; s_tx_hash := tx_hash event;
     s_confirmation_count := confirmation_count event;
     s_timestamp := timestamp event; s_event_type := event_type event |}.

Definition set_confirmed (now : string) (t : Trade) : Trade :=
  {| status := CONFIRMED; created_at := created_at t;
     confirmations := confirmations t; events := events t;
     confirmed_at := Some now; completed_at := completed_at t |}.

Definition set_completed (now : string) (t : Trade) : Trade :=
  {| status := COMPLETED; created_at := created_at t;
     confirmations := confirmations t; events := events t;
     confirmed_at := confirmed_at t; completed_at := Some now |}.

(** Lines 216-247 of [_process_event]: the updates made to the [trade]
    dictionary, in the order of the source. *)
Definition update_trade (cfg : Config) (now : string) (event : Event) (trade : Trade)
  : Trade :=
  let trade1 :=
    {| status := status trade; created_at := created_at trade;
       confirmations := Z.max (confirmations trade) (confirmation_count event);
       events := events trade ++ [summary_of event];
       confirmed_at := confirmed_at trade;
       completed_at := completed_at trade |} in
  if Z.leb (confirmation_threshold cfg) (confirmation_count event) then
    let trade2 :=
      if String.eqb (status trade1) PENDING
      then set_confirmed now trade1 else trade1 in
    if String.eqb (event_type event) FINAL_CONFIRMATION
    then set_completed now trade2 else trade2
  else trade1.

Definition mark_processed (event : Event) (st : State) : State :=
  {| bot_data_file := bot_data_file st; dlq_file := dlq_file st;
     event_queue := event_queue st;
     processed_events := <[event_id event := event]> (processed_events st);
     io_faults := io_faults st |}.

Definition _process_event (cfg : Config) (now : string) (event : Event) (st : State)
  : State :=
  let trades := _load_bot_data st in
  let trade :=
    match trades !! trade_id event with
    | Some t => t
    | None => new_trade now
    end in
  let trades' := <[trade_id event := update_trade cfg now event trade]> trades in
  mark_processed event (_save_bot_data st trades').

Definition get_trade_status (st : State) (tid : string) : option Trade :=
  _load_bot_data st !! tid.

Definition get_dlq_events (st : State) : list DeadLetterEvent := _load_dlq st.

Definition get_queue_size (st : State) : nat := length (event_queue st).

(** One call of the method that the retry decorator wraps.  The decorated
    method calls [self._process_event], looked up on the instance at each
    attempt, so the wrapper is parametric in it: [None] is a normal return,
    [Some e] the exception raised. *)
Definition attempt_fn : Type := Event -> State -> State * option exn.

(** The method of the class: it has no [raise] of its own. *)
Definition process_event_attempt (cfg : Config) (now : string) : attempt_fn :=
  fun event st => (_process_event cfg now event st, None).

(** tenacity's [retry(stop=stop_after_attempt(n), retry=retry_if_exception_type(Exception),
    reraise=True)]: the call is made again after every exception; when the
    attempt that just failed was the last one allowed, the exception of
    that attempt is raised again (with [reraise=True] tenacity raises no
    [RetryError]).  The waits between attempts do not touch the state.
    [retries_left] counts the attempts still allowed after the current one. *)
Fixpoint retry_reraise (retries_left : nat) (f : attempt_fn) (event : Event) (st : State)
  : State * option exn :=
  match f event st with
  | (st', None) => (st', None)
  | (st', Some e) =>
      match retries_left with
      | O => (st', Some e)
      | S k => retry_reraise k f event st'
      end
  end.

(** [stop=stop_after_attempt(5)] *)
Definition stop_after_attempt : nat := 5.

Definition _process_event_with_retry (process : attempt_fn) (event : Event) (st : State)
  : State * option exn :=
  retry_reraise (stop_after_attempt - 1) process event st.

Definition _handle_failed_event (now : string) (event : Event) (error : exn)
    (retry_count : Z) (st : State) : State :=
  let failed_events := _load_dlq st in
  let dlq_event :=
    {| dl_event_id := event_id event; dl_trade_id := trade_id event;
       error_message := exn_str error; dl_timestamp := now;
       dl_retry_count := retry_count; original_event := event |} in
  _save_dlq st (failed_events ++ [dlq_event]).

Definition dequeue (st : State) : option (Event * State) :=
  match event_queue st with
  | [] => None
  | event :: rest =>
      Some (event,
            {| bot_data_file := bot_data_file st; dlq_file := dlq_file st;
               event_queue := rest;
               processed_events := processed_events st;
               io_faults := io_faults st |})
  end.

(** One iteration of the [while self.processing] loop of [process_queue]:
    an empty queue times the [get] out and the loop continues. *)
Definition process_queue_step (cfg : Config) (process : attempt_fn) (now : string)
    (st : State) : State :=
  match dequeue st with
  | None => st
  | Some (event, st0) =>
      match _process_event_with_retry process event st0 with
      | (st1, None) => st1
      | (st1, Some (RetryError last)) =>
          _handle_failed_event now event last (max_retries cfg) st1
      | (st1, Some e) => _handle_failed_event now event e 0 st1
      end
  end.

(** The [for i, event in enumerate(failed_events)] loop with its [pop(i)]
    and [break]: the first entry with the id, and the list without it. *)
Fixpoint pop_first (eid : string) (l : list DeadLetterEvent)
  : option (DeadLetterEvent * list DeadLetterEvent) :=
  match l with
  | [] => None
  | e :: l' =>
      if String.eqb (dl_event_id e) eid then Some (e, l')
      else match pop_first eid l' with
           | Some (found, rest) => Some (found, e :: rest)
           | None => None
           end
  end.

(** [retry_dlq_event]: what the call returns or raises, the state at that
    moment, and the tasks it has created.  Line 450 does not put the event
    on the queue: [asyncio.create_task(self.enqueue_event(event))] creates
    the task that will, when the event loop next gets control.  Without a
    running loop [asyncio.create_task] raises [RuntimeError], after the
    dead-letter file was rewritten; [loop_running] says which is the
    case. *)
Definition retry_dlq_event (loop_running : bool) (eid : string) (st : State)
  : (bool + exn) * State * list Event :=
  match pop_first eid (_load_dlq st) with
  | None => (inl false, st, [])
  | Some (event_data, failed_events) =>
      let st1 := _save_dlq st failed_events in
      let original := original_event event_data in
      let event :=
        {| event_id := event_id original; trade_id := trade_id original;
           tx_hash := tx_hash original;
           confirmation_count := confirmation_count original;
           timestamp := timestamp original;
           event_type := event_type original; data := data original;
           retry_count := retry_count original + 1 |} in
      if loop_running then (inl true, st1, [event])
      else (inr (PyException "no running event loop"), st1, [])
  end.

(** The event loop runs the tasks created, each an [enqueue_event], in the
    order of their creation, on the state as it then is. *)
Definition run_tasks (tasks : list Event) (st : State) : State :=
  fold_left (fun s event => enqueue_event event s) tasks st.

(** Events applied one after the other, each with the clock reading of its
    processing. *)
Fixpoint process_all (cfg : Config) (evs : list (string * Event)) (st : State) : State :=
  match evs with
  | [] => st
  | (now, event) :: rest => process_all cfg rest (_process_event cfg now event st)
  end.

(** Position of a status on the path PENDING, CONFIRMED, COMPLETED. *)
Definition status_rank (s : string) : option nat :=
  if String.eqb s PENDING then Some 0%nat
  else if String.eqb s CONFIRMED then Some 1%nat
  else if String.eqb s COMPLETED then Some 2%nat
  else None.

(** [s'] is not behind [s] on that path. *)
Definition status_forward (s s' : string) : Prop :=
  forall r, status_rank s = Some r ->
            exists r', status_rank s' = Some r' /\ (r <= r')%nat.

(** [n] successive attempts on [event], each started in the state the
    previous one left, all raise; the last one raises [e] and leaves [st']. *)
Fixpoint failing_attempts (n : nat) (f : attempt_fn) (event : Event)
    (st st' : State) (e : exn) : Prop :=
  match n with
  | O => False
  | S k =>
      match k with
      | O => f event st = (st', Some e)
      | S _ =>
          exists s1 e1, f event st = (s1, Some e1) /\
                        failing_attempts k f event s1 st' e
      end
  end.

(** The entry [_handle_failed_event] builds. *)
Definition dead_letter (now : string) (event : Event) (msg : string) (count : Z)
  : DeadLetterEvent :=
  {| dl_event_id := event_id event; dl_trade_id := trade_id event;
     error_message := msg; dl_timestamp := now;
     dl_retry_count := count; original_event := event |}.

(** [event] as [retry_dlq_event] enqueues it again. *)
Definition resubmitted (event : Event) : Event :=
  {| event_id := event_id event; trade_id := trade_id event;
     tx_hash := tx_hash event;
     confirmation_count := confirmation_count event;
     timestamp := timestamp event;
     event_type := event_type event; data := data event;
     retry_count := retry_count event + 1 |}.

(** The replacement of [_process_event] used by [test_max_retries_exceeded]. *)
Definition always_fail : attempt_fn :=
  fun _ st => (st, Some (PyException "Persistent failure")).

Definition queued (event : Event) : State :=
  {| bot_data_file := Some ∅; dlq_file := Some [];
     event_queue := [event]; processed_events := ∅; io_faults := [] |}.

(** Sample trades, store and events, after the fixtures of the test suite. *)
Definition confirmed_trade : Trade :=
  {| status := CONFIRMED; created_at := "t0"; confirmations := 5;
     events := []; confirmed_at := Some "t1"; completed_at := None |}.

Definition failed_trade : Trade :=
  {| status := FAILED; created_at := "t0"; confirmations := 0;
     events := []; confirmed_at := None; completed_at := None |}.

Definition pending_trade : Trade :=
  {| status := PENDING; created_at := "t0"; confirmations := 1;
     events := []; confirmed_at := None; completed_at := None |}.

Definition store_with (t : Trade) : State :=
  {| bot_data_file := Some {[ "trade_001" := t ]}; dlq_file := Some [];
     event_queue := []; processed_events := ∅; io_faults := [] |}.

Definition event_with (count : Z) (type : string) : Event :=
  {| event_id := "evt_001"; trade_id := "trade_001"; tx_hash := "0xabc123";
     confirmation_count := count; timestamp := "t2"; event_type := type;
     data := []; retry_count := 0 |}.

(** [get_processed_count]: [len(self.processed_events)] *)
Definition get_processed_count (st : State) : nat := size (processed_events st).

(** The membership test [wait_until_processed] polls. *)
Definition is_processed (st : State) (eid : string) : bool :=
  bool_decide (is_Some (processed_events st !! eid)).

(** The consumer loop run with the method of the class itself, one clock
    reading per iteration. *)
Fixpoint process_queue_steps (cfg : Config) (nows : list string) (st : State) : State :=
  match nows with
  | [] => st
  | now :: rest =>
      process_queue_steps cfg rest
        (process_queue_step cfg (process_event_attempt cfg now) now st)
  end.

(** [k] attempts on [event] raise, the next one returns and leaves [st']. *)
Fixpoint succeeds_after (k : nat) (f : attempt_fn) (event : Event)
    (st st' : State) : Prop :=
  match k with
  | O => f event st = (st', None)
  | S k' =>
      exists s1 e1, f event st = (s1, Some e1) /\ succeeds_after k' f event s1 st'
  end.

(** The events of a sequence that belong to one trade, in order. *)
Definition events_of (tid : string) (evs : list (string * Event)) : list Event :=
  List.filter (fun ev => String.eqb (trade_id ev) tid) (map snd evs).

(** The two tests of lines 229 and 239 on one event. *)
Definition reaches_threshold (cfg : Config) (ev : Event) : bool :=
  Z.leb (confirmation_threshold cfg) (confirmation_count ev).

Definition completes (cfg : Config) (ev : Event) : bool :=
  reaches_threshold cfg ev && String.eqb (event_type ev) FINAL_CONFIRMATION.

(** The status and the confirmation count a trade ends with, read off the
    set of events applied to it. *)
Definition final_status (cfg : Config) (evs : list Event) (s : string) : string :=
  if existsb (completes cfg) evs then COMPLETED
  else if String.eqb s PENDING && existsb (reaches_threshold cfg) evs then CONFIRMED
  else s.

Definition max_confirmations (evs : list Event) (c : Z) : Z :=
  fold_left (fun acc ev => Z.max acc (confirmation_count ev)) evs c.

(** A flaky replacement of [_process_event]: it raises while the trade store
    is missing (leaving an empty store behind) and returns once it is there. *)
Definition fail_until_store : attempt_fn :=
  fun _ st =>
    match bot_data_file st with
    | None =>
        ({| bot_data_file := Some ∅; dlq_file := dlq_file st;
            event_queue := event_queue st;
            processed_events := processed_events st;
            io_faults := io_faults st |},
         Some (PyException "Temporary failure"))
    | Some _ => (st, None)
    end.

(** The state with another queue content. *)
Definition with_queue (q : list Event) (st : State) : State :=
  {| bot_data_file := bot_data_file st; dlq_file := dlq_file st;
     event_queue := q;
     processed_events := processed_events st; io_faults := io_faults st |}.

(** An event of a second trade, and a processor state given by its parts. *)
Definition other_event : Event :=
  {| event_id := "evt_002"; trade_id := "trade_002"; tx_hash := "0xdef456";
     confirmation_count := 7; timestamp := "t2"; event_type := "confirmation";
     data := []; retry_count := 0 |}.

Definition state_of (trades : option (gmap string Trade))
    (dlq : list DeadLetterEvent) (queue : list Event) (faults : list write_outcome) : State :=
  {| bot_data_file := trades; dlq_file := Some dlq; event_queue := queue;
     processed_events := ∅; io_faults := faults |}.

End Processor.

(** ** src/webhooks/receiver.py *)

Module Receiver.

Record WebhookEvent : Type := mkWebhookEvent {
  event_id : string;
  network : string;
  tx_hash : string;
  confirmation_count : Z;
  timestamp : string;
  event_type : string;
  data : list (string * json);
  received_at : string
}.

(** The decoded request body: the envelope fields of the webhook with
    their JSON types ([None]: key absent), and the network-specific
    fields. *)
Record Payload : Type := mkPayload {
  p_event_id : option string;
  p_network : option string;
  p_tx_hash : option string;
  p_confirmations : option Z;
  p_timestamp : option string;
  p_type : option string;
  p_fields : list (string * json)
}.

Record Request : Type := mkRequest {
  body : string;                  (* [await request.read()] *)
  signature_header : option string  (* [X-Webhook-Signature] *)
}.

(** [web.json_response(body, status=...)] *)
Record Response : Type := mkResponse {
  http_status : Z;
  json_body : list (string * string)
}.

(** Content of [webhook_events.json]. *)
Record EventsDoc : Type := mkEventsDoc {
  events : list WebhookEvent;
  processed_ids : list string
}.

Record State : Type := mkState {
  events_file : option EventsDoc;
  io_faults : list write_outcome
}.

Definition upper_ascii (c : ascii) : ascii :=
  let n := nat_of_ascii c in
  if Nat.leb 97 n && Nat.leb n 122 then ascii_of_nat (Nat.sub n 32) else c.

(** [str.upper()] on ASCII text. *)
Fixpoint upper (s : string) : string :=
  match s with
  | EmptyString => EmptyString
  | String c s' => String (upper_ascii c) (upper s')
  end.

Definition _load_events (st : State) : EventsDoc :=
  match events_file st with
  | Some d => d
  | None => {| events := []; processed_ids := [] |}
  end.

Definition _save_events (st : State) (d : EventsDoc) : State :=
  let '(f, rest) := write_file (io_faults st) (events_file st) d in
  {| events_file := f; io_faults := rest |}.

Definition _check_idempotency (st : State) (eid : string) : bool :=
  negb (str_in eid (processed_ids (_load_events st))).

Definition _mark_processed (st : State) (eid : string) : State :=
  let d := _load_events st in
  if negb (str_in eid (processed_ids d)) then
    _save_events st {| events := events d;
                       processed_ids := processed_ids d ++ [eid] |}
  else st.

(** [payload.get(k)] and [payload.get(k, [])] on the network-specific fields *)
Definition get_field (p : Payload) (k : string) : json :=
  default JNull (assoc_get k (p_fields p)).
Definition get_list_field (p : Payload) (k : string) : json :=
  default (JArr []) (assoc_get k (p_fields p)).

Definition envelope (net : string) (d : list (string * json)) (now : string)
    (p : Payload) : WebhookEvent :=
  {| event_id := default "" (p_event_id p);
     network := net;
     tx_hash := default "" (p_tx_hash p);
     confirmation_count := default 0 (p_confirmations p);
     timestamp := default "" (p_timestamp p);
     event_type := default "transaction" (p_type p);
     data := d;
     received_at := now |}.

Definition _parse_ethereum_event (now : string) (p : Payload) : option WebhookEvent :=
  Some (envelope "ETH"
          [("from", get_field p "from"); ("to", get_field p "to");
           ("value", get_field p "value");
           ("gas_price", get_field p "gas_price");
           ("gas_used", get_field p "gas_used")] now p).

Definition _parse_bitcoin_event (now : string) (p : Payload) : option WebhookEvent :=
  Some (envelope "BTC"
          [("inputs", get_list_field p "inputs");
           ("outputs", get_list_field p "outputs");
           ("fee", get_field p "fee"); ("size", get_field p "size")] now p).

Definition _parse_solana_event (now : string) (p : Payload) : option WebhookEvent :=
  Some (envelope "SOL"
          [("accounts", get_list_field p "accounts");
           ("instructions", get_list_field p "instructions");
           ("fee", get_field p "fee"); ("slot", get_field p "slot")] now p).

Definition _parse_litecoin_event (now : string) (p : Payload) : option WebhookEvent :=
  Some (envelope "LTC"
          [("inputs", get_list_field p "inputs");
           ("outputs", get_list_field p "outputs");
           ("fee", get_field p "fee"); ("size", get_field p "size")] now p).

Definition _parse_event (now : string) (p : Payload) : option WebhookEvent :=
  let net := upper (default "" (p_network p)) in
  if String.eqb net "ETH" then _parse_ethereum_event now p
  else if String.eqb net "BTC" then _parse_bitcoin_event now p
  else if String.eqb net "SOL" then _parse_solana_event now p
  else if String.eqb net "LTC" then _parse_litecoin_event now p
  else None.

Definition error_response (code : Z) (msg : string) : Response :=
  {| http_status := code; json_body := [("error", msg)] |}.

Definition duplicate_response (eid : string) : Response :=
  {| http_status := 200;
     json_body := [("status", "duplicate"); ("event_id", eid)] |}.

Definition received_response (eid : string) (event : WebhookEvent) : Response :=
  {| http_status := 200;
     json_body := [("status", "received"); ("event_id", eid);
                   ("network", network event); ("tx_hash", tx_hash event)] |}.

Section Handler.

(** Library functions the handler calls: [hmac.new(key, msg,
    hashlib.sha256).hexdigest()] and [json.loads] ([None]: the body is
    not JSON). *)
Variable hmac_sha256_hex : string -> string -> string.
Variable json_loads : string -> option Payload.

(** [self.webhook_secret] *)
Variable webhook_secret : string.

Definition _verify_signature (payload : string) (signature : string) : bool :=
  if String.eqb webhook_secret "" then true
  else String.eqb (hmac_sha256_hex webhook_secret payload) signature.

(** [handle_webhook].  On the typed payload no step of the body raises, so
    the outer [except Exception] with its 500 response has no case here. *)
Definition handle_webhook (now : string) (request : Request) (st : State)
  : Response * State :=
  let signature := default "" (signature_header request) in
  if negb (_verify_signature (body request) signature) then
    (error_response 401 "Invalid signature", st)
  else
    match json_loads (body request) with
    | None => (error_response 400 "Invalid JSON", st)
    | Some payload =>
        match p_event_id payload with
        | None | Some "" => (error_response 400 "Missing event_id", st)
        | Some eid =>
            if negb (_check_idempotency st eid) then
              (duplicate_response eid, st)
            else
              match _parse_event now payload with
              | None => (error_response 400 "Failed to parse event", st)
              | Some event =>
                  let d := _load_events st in
                  let st1 :=
                    _save_events st
                      {| events := events d ++ [event];
                         processed_ids := processed_ids d |} in
                  let st2 := _mark_processed st1 eid in
                  (received_response eid event, st2)
              end
        end
    end.

End Handler.

(** What an acknowledgement claims and what the files hold. *)
Definition is_received (r : Response) : bool :=
  match assoc_get "status" (json_body r) with
  | Some s => String.eqb s "received"
  | None => false
  end.

Definition stored (st : State) (eid : string) : bool :=
  existsb (fun e => String.eqb (event_id e) eid) (events (_load_events st)).

Definition in_ledger (st : State) (eid : string) : bool :=
  str_in eid (processed_ids (_load_events st)).

(** Sample delivery, after the fixtures of the test suite: an Ethereum
    payload, a receiver without secret and the decoder applied to the
    sample body. *)
Definition eth_event_payload : Payload :=
  {| p_event_id := Some "evt_eth_001"; p_network := Some "eth";
     p_tx_hash := Some "0xabc123"; p_confirmations := Some 1;
     p_timestamp := Some "t0"; p_type := Some "confirmation";
     p_fields := [("from", JStr "0x1111"); ("to", JStr "0x2222")] |}.

Definition sample_request : Request :=
  {| body := "{...}"; signature_header := None |}.

Definition no_hmac : string -> string -> string := fun _ _ => "".

Definition sample_loads : string -> option Payload :=
  fun _ => Some eth_event_payload.

Definition empty_store (faults : list write_outcome) : State :=
  {| events_file := Some {| events := []; processed_ids := [] |};
     io_faults := faults |}.

(** A store that already holds events and ids. *)
Definition store_of (evs : list WebhookEvent) (ids : list string)
    (faults : list write_outcome) : State :=
  {| events_file := Some {| events := evs; processed_ids := ids |};
     io_faults := faults |}.

(** A decoder for a body that is not JSON, and the sample event as parsed. *)
Definition not_json : string -> option Payload := fun _ => None.

Definition eth_event (now : string) : WebhookEvent :=
  envelope "ETH"
    [("from", JStr "0x1111"); ("to", JStr "0x2222");
     ("value", JNull); ("gas_price", JNull); ("gas_used", JNull)]
    now eth_event_payload.

(** An event stored by an earlier delivery. *)
Definition btc_event : WebhookEvent :=
  {| event_id := "evt_btc_001"; network := "BTC"; tx_hash := "0xdef456";
     confirmation_count := 6; timestamp := "t0"; event_type := "confirmation";
     data := [("inputs", JArr []); ("outputs", JArr []);
              ("fee", JNull); ("size", JNull)];
     received_at := "t0" |}.

(** The text is ASCII: on such text the byte-wise [upper] is [str.upper()]. *)
Fixpoint ascii_only (s : string) : bool :=
  match s with
  | EmptyString => true
  | String c s' => Nat.ltb (nat_of_ascii c) 128 && ascii_only s'
  end.

End Receiver.

(** ** src/blockchain/rpc_client.py *)

Module Rpc.

Inductive NetworkType : Type := ETH | BTC | SOL | LTC.

(** Exceptions leaving the client.  [RPCError] carries the [message] of
    the JSON-RPC error object, [RPCTimeoutError] the time-out it reports;
    [OtherException] is any exception outside the [RPCError] hierarchy. *)
Inductive RpcExn : Type :=
| RPCError (error_msg : json)
| RPCConnectionError (msg : string)
| RPCTimeoutError (after : Q)
| OtherException (msg : string).

Record RPCClient : Type := mkRPCClient {
  eth_rpc_url : option string;
  btc_rpc_url : option string;
  sol_rpc_url : option string;
  ltc_rpc_url : option string;
  timeout : Q;
  max_retries : Z;
  backoff_factor : Q
}.

(** What the endpoint does with one HTTP request, as far as the client can
    tell: how long it takes to answer ([None]: it never does) and what
    [session.request] and [response.json()] then produce: a status and a
    JSON object, an [aiohttp.ClientError], or some other exception. *)
Inductive Answer : Type :=
| Reply (status : Z) (data : list (string * json))
| ClientError (msg : string)
| Failure (msg : string).

Record Exchange : Type := mkExchange {
  latency : option Q;
  answer : Answer
}.

Inductive HttpOutcome : Type :=
| Got (status : Z) (data : list (string * json))
| TimedOut                           (* [asyncio.TimeoutError] *)
| ClientErr (msg : string)
| Raised (msg : string).

(** [session.request(..., timeout=aiohttp.ClientTimeout(total=t))] *)
Definition http_request (t : Q) (x : Exchange) : HttpOutcome :=
  match latency x with
  | None => TimedOut
  | Some l =>
      if Qle_bool l t then
        match answer x with
        | Reply status d => Got status d
        | ClientError m => ClientErr m
        | Failure m => Raised m
        end
      else TimedOut
  end.

(** What the client does to the outside, in order. *)
Inductive Action : Type :=
| Request (url : string) (payload : json) (total_timeout : Q)
| Sleep (seconds : Q).

Definition _get_rpc_url (c : RPCClient) (network : NetworkType) : option string :=
  match network with
  | ETH => eth_rpc_url c
  | BTC => btc_rpc_url c
  | SOL => sol_rpc_url c
  | LTC => ltc_rpc_url c
  end.

Definition rpc_payload (version method : string) : json :=
  JObj [("jsonrpc", JStr version); ("method", JStr method);
        ("params", JArr []); ("id", JNum 1)].

Definition _get_health_check_payload (network : NetworkType) : json :=
  match network with
  | ETH => rpc_payload "2.0" "eth_chainId"
  | BTC => rpc_payload "1.0" "getblockchaininfo"
  | SOL => rpc_payload "2.0" "getHealth"
  | LTC => rpc_payload "1.0" "getblockchaininfo"
  end.

(** [not url] *)
Definition url_missing (url : option string) : bool :=
  match url with
  | None | Some "" => true
  | Some _ => false
  end.

(** The body of the [try] of [_make_request] with its three handlers: the
    data is returned, or an exception is caught and kept as [last_error],
    or an exception no handler matches leaves the method. *)
Inductive AttemptResult : Type :=
| Returned (data : list (string * json))
| Caught (last_error : RpcExn)
| Uncaught (e : RpcExn).

Definition attempt_once (c : RPCClient) (x : Exchange) : AttemptResult :=
  match http_request (timeout c) x with
  | Got _ d =>
      match assoc_get "error" d with
      | None | Some JNull => Returned d
      | Some (JObj fields) =>
          Caught (RPCError
                    (default (JStr "Unknown error") (assoc_get "message" fields)))
      | Some _ => Uncaught (OtherException "AttributeError")
      end
  | TimedOut => Caught (RPCTimeoutError (timeout c))
  | ClientErr m => Caught (RPCConnectionError ("Connection error: " ++ m))
  | Raised m => Uncaught (OtherException m)
  end.

(** The typed handlers of [_make_request] cover three failures of an
    attempt: a time-out, an [aiohttp.ClientError], and a reply whose [error]
    member is an object.  A body that is not JSON and an [error] member
    that is a string, a number, a list or a boolean are failures without a
    handler. *)
Definition handled_failure (o : HttpOutcome) : bool :=
  match o with
  | TimedOut | ClientErr _ => true
  | Got _ d =>
      match assoc_get "error" d with
      | Some (JObj _) => true
      | _ => false
      end
  | Raised _ => false
  end.

Section Requests.

(** [x ** n] on a float [x]: the float Python computes, or [None] where it
    raises [OverflowError]. *)
Variable float_pow : Q -> nat -> option Q.

(** [self.backoff_factor ** attempt] *)
Definition wait_time (c : RPCClient) (attempt : nat) : option Q :=
  float_pow (backoff_factor c) attempt.

(** The [for attempt in range(self.max_retries)] loop and the [raise] after
    it.  [net k] is what the endpoint does with the request of attempt [k];
    [remaining] is the number of iterations still to run.  The wait is
    computed after the [try] statement, so an [OverflowError] of the power
    leaves the method. *)
Fixpoint request_loop (c : RPCClient) (url : string) (payload : json)
    (net : nat -> Exchange) (remaining attempt : nat) (last_error : option RpcExn)
  : (list (string * json) + RpcExn) * list Action :=
  match remaining with
  | O =>
      (inr (default (RPCConnectionError "Failed to connect to RPC endpoint")
              last_error), [])
  | S r =>
      let req := Request url payload (timeout c) in
      match attempt_once c (net attempt) with
      | Returned d => (inl d, [req])
      | Uncaught e => (inr e, [req])
      | Caught e =>
          if Z.ltb (Z.of_nat attempt) (max_retries c - 1) then
            match wait_time c attempt with
            | None => (inr (OtherException "OverflowError"), [req])
            | Some w =>
                let '(res, acts) :=
                  request_loop c url payload net r (S attempt) (Some e) in
                (res, req :: Sleep w :: acts)
            end
          else
            let '(res, acts) :=
              request_loop c url payload net r (S attempt) (Some e) in
            (res, req :: acts)
      end
  end.

Definition _make_request (c : RPCClient) (url : option string) (payload : json)
    (net : nat -> Exchange)
  : (list (string * json) + RpcExn) * list Action :=
  match url with
  | None | Some "" => (inr (RPCConnectionError "RPC URL not configured"), [])
  | Some u => request_loop c u payload net (Z.to_nat (max_retries c)) 0 None
  end.

(** [sol_get_balance]: [response.get("result", {}).get("value", 0)]; the
    second [get] raises [AttributeError] when [result] is present and not an
    object. *)
Definition sol_get_balance (c : RPCClient) (address : string)
    (net : nat -> Exchange) : (json + RpcExn) * list Action :=
  let payload :=
    JObj [("jsonrpc", JStr "2.0"); ("method", JStr "getBalance");
          ("params", JArr [JStr address]); ("id", JNum 1)] in
  match _make_request c (sol_rpc_url c) payload net with
  | (inl response, acts) =>
      match default (JObj []) (assoc_get "result" response) with
      | JObj fields => (inl (default (JNum 0) (assoc_get "value" fields)), acts)
      | _ => (inr (OtherException "AttributeError"), acts)
      end
  | (inr e, acts) => (inr e, acts)
  end.

End Requests.

(** [health_check]: the value returned and the requests issued. *)
Definition health_check (c : RPCClient) (network : NetworkType) (x : Exchange)
  : bool * list Action :=
  match _get_rpc_url c network with
  | None | Some "" => (false, [])
  | Some url =>
      let issued := [Request url (_get_health_check_payload network) (2 # 1)] in
      match http_request (2 # 1) x with
      | Got status d => (Z.eqb status 200 && negb (has_key "error" d), issued)
      | _ => (false, issued)
      end
  end.

(** Projections of a trace. *)
Fixpoint sleeps (acts : list Action) : list Q :=
  match acts with
  | [] => []
  | Sleep s :: rest => s :: sleeps rest
  | Request _ _ _ :: rest => sleeps rest
  end.

Definition is_request (a : Action) : bool :=
  match a with Request _ _ _ => true | Sleep _ => false end.

Definition requests (acts : list Action) : list Action :=
  List.filter is_request acts.

(** The three typed faults of the client. *)
Definition typed_fault (e : RpcExn) : bool :=
  match e with
  | RPCError _ | RPCConnectionError _ | RPCTimeoutError _ => true
  | OtherException _ => false
  end.

(** A trace of [remaining] requests, numbered from [attempt], with a pause
    of [w k] seconds after request [k] except after the last one. *)
Fixpoint retry_schedule (w : nat -> Q) (req : Action) (remaining attempt : nat)
  : list Action :=
  match remaining with
  | O => []
  | S r =>
      match r with
      | O => [req]
      | S _ => req :: Sleep (w attempt) :: retry_schedule w req r (S attempt)
      end
  end.


(** Sample client and endpoints, after the fixtures of the test suite. *)
Definition sample_client : RPCClient :=
  {| eth_rpc_url := Some "http://localhost:8545";
     btc_rpc_url := Some "http://localhost:8332";
     sol_rpc_url := None; ltc_rpc_url := None;
     timeout := 10 # 1; max_retries := 3; backoff_factor := 2 # 1 |}.

Definition refusing : nat -> Exchange :=
  fun _ => {| latency := Some (1 # 10); answer := ClientError "Connection refused" |}.

Definition answering (status : Z) (d : list (string * json)) : Exchange :=
  {| latency := Some (1 # 10); answer := Reply status d |}.

Definition chain_id_result : list (string * json) :=
  [("jsonrpc", JStr "2.0"); ("result", JStr "0x1"); ("id", JNum 1)].

(** [NetworkType.value] and the iteration order of the enumeration. *)
Definition network_value (n : NetworkType) : string :=
  match n with
  | ETH => "ethereum"
  | BTC => "bitcoin"
  | SOL => "solana"
  | LTC => "litecoin"
  end.

Definition all_networks : list NetworkType := [ETH; BTC; SOL; LTC].

(** [health_check_all]: the dictionary from network names to health, in
    insertion order.  [net n] is what the endpoint of network [n] does with
    the probe; [health_check] raises nothing, so every gathered status is a
    [bool]. *)
Definition health_check_all (c : RPCClient) (net : NetworkType -> Exchange)
  : list (string * bool) :=
  map (fun n => (network_value n, fst (health_check c n (net n))))
    (List.filter (fun n => negb (url_missing (_get_rpc_url c n))) all_networks).

(** The same exchange with another HTTP status on its reply. *)
Definition with_status (status : Z) (x : Exchange) : Exchange :=
  {| latency := latency x;
     answer := match answer x with
               | Reply _ d => Reply status d
               | other => other
               end |}.

(** Sample endpoints: one that fails twice and then answers, one whose
    reply carries a null error member as JSON-RPC 1.0 nodes send it. *)
Definition recovering (d : list (string * json)) : nat -> Exchange :=
  fun attempt =>
    if Nat.ltb attempt 2
    then {| latency := None; answer := Reply 200 d |}
    else answering 200 d.

Definition block_info_result : list (string * json) :=
  [("result", JObj [("blocks", JNum 800000)]); ("error", JNull); ("id", JNum 1)].

Definition malformed : nat -> Exchange :=
  fun _ => {| latency := Some (1 # 10); answer := Failure "Invalid JSON" |}.

(** A client with all four endpoints and a given number of attempts. *)
Definition full_client (retries : Z) : RPCClient :=
  {| eth_rpc_url := Some "http://localhost:8545";
     btc_rpc_url := Some "http://localhost:8332";
     sol_rpc_url := Some "http://localhost:8899";
     ltc_rpc_url := Some "http://localhost:9332";
     timeout := 10 # 1; max_retries := retries; backoff_factor := 2 # 1 |}.

(** A power for the sample clients: Python's [**] wherever the exact power
    is a float, as it is for a base that is a power of two; from [2 ** 1024]
    on the float power raises [OverflowError]. *)
Definition float_limit : Q := inject_Z (2 ^ 1024).

Definition sample_pow (x : Q) (n : nat) : option Q :=
  let p := Qpower x (Z.of_nat n) in
  if Qle_bool float_limit p || Qle_bool p (- float_limit) then None else Some p.

(** A client whose backoff factor is the float [2.0 ** 700]. *)
Definition steep_client : RPCClient :=
  {| eth_rpc_url := Some "http://localhost:8545";
     btc_rpc_url := None; sol_rpc_url := None; ltc_rpc_url := None;
     timeout := 10 # 1; max_retries := 4;
     backoff_factor := inject_Z (2 ^ 700) |}.

(** The reply of [test_http_error_status]: status 500 and an [error] member
    that is a string. *)
Definition error_text_reply : nat -> Exchange :=
  fun _ => answering 500 [("error", JStr "Internal Server Error")].

End Rpc.

(** ** src/webhooks/monitoring.py: the reader of the processor's files *)

Module Monitoring.

Inductive HealthStatus : Type := HEALTHY | DEGRADED | UNHEALTHY.

(** How bad a status is. *)
Definition severity (h : HealthStatus) : nat :=
  match h with
  | HEALTHY => 0
  | DEGRADED => 1
  | UNHEALTHY => 2
  end.

(** [_determine_health_status].  A finite float is a rational and its
    comparison with an integer literal is exact, so [success_rate < 80] is
    the negation of [80 <= success_rate] on [Q]. *)
Definition _determine_health_status (success_rate : Q) (failure_count dlq_count : Z)
  : HealthStatus :=
  if negb (Qle_bool (80 # 1) success_rate) || Z.ltb 10 dlq_count then UNHEALTHY
  else if negb (Qle_bool (95 # 1) success_rate) || Z.ltb 5 dlq_count then DEGRADED
  else HEALTHY.

(** One entry of [latest_transactions]. *)
Record TransactionSummary : Type := mkTransactionSummary {
  tx_trade_id : string;
  tx_status : string;
  tx_confirmations : Z;
  tx_created_at : string;
  tx_confirmed_at : option string;
  tx_completed_at : option string
}.

Record MetricsSnapshot : Type := mkMetricsSnapshot {
  timestamp : string;
  total_transactions : Z;
  successful_transactions : Z;
  failed_transactions : Z;
  pending_transactions : Z;
  confirmed_transactions : Z;
  success_rate : Q;
  failure_rate : Q;
  pending_confirmations : Z;
  average_confirmation_time : Q;
  health_status : string;
  queue_size : Z;
  processed_count : Z;
  dlq_count : Z;
  latest_transactions : list TransactionSummary
}.

(** Content of [metrics.json]. *)
Record MetricsDoc : Type := mkMetricsDoc {
  snapshots : list MetricsSnapshot;
  last_updated : string
}.

Record State : Type := mkState {
  metrics_file : option MetricsDoc;
  io_faults : list write_outcome
}.

Definition _load_metrics (now : string) (st : State) : MetricsDoc :=
  match metrics_file st with
  | Some d => d
  | None => {| snapshots := []; last_updated := now |}
  end.

Definition _save_metrics (st : State) (d : MetricsDoc) : State :=
  let '(f, rest) := write_file (io_faults st) (metrics_file st) d in
  {| metrics_file := f; io_faults := rest |}.

(** [save_snapshot]: [snapshots[-100:]] keeps the last hundred entries. *)
Definition save_snapshot (now : string) (snapshot : MetricsSnapshot) (st : State)
  : State :=
  let metrics := _load_metrics now st in
  let appended := (snapshots metrics ++ [snapshot])%list in
  let kept :=
    if Nat.ltb 100 (length appended)
    then drop (Nat.sub (length appended) 100) appended
    else appended in
  _save_metrics st {| snapshots := kept; last_updated := now |}.

(** [get_latest_snapshot]: [None] when there is no snapshot, else
    [snapshots[-1]]. *)
Definition get_latest_snapshot (now : string) (st : State) : option MetricsSnapshot :=
  last (snapshots (_load_metrics now st)).

(** A snapshot with a given time and nothing to report, and a file with
    [n] such snapshots. *)
Definition idle_snapshot (time : string) : MetricsSnapshot :=
  {| timestamp := time; total_transactions := 0; successful_transactions := 0;
     failed_transactions := 0; pending_transactions := 0;
     confirmed_transactions := 0; success_rate := 0; failure_rate := 0;
     pending_confirmations := 0; average_confirmation_time := 0;
     health_status := "unhealthy"; queue_size := 0; processed_count := 0;
     dlq_count := 0; latest_transactions := [] |}.

Definition metrics_with (n : nat) : State :=
  {| metrics_file := Some {| snapshots := repeat (idle_snapshot "t0") n;
                             last_updated := "t0" |};
     io_faults := [] |}.

End Monitoring.

(** * Properties *)

(** ** Event processor: the trade state machine *)

Section TradeStateMachine.
Import Processor.

Variable cfg : Config.

Lemma write_file_ok {A : Type} (fs : list write_outcome) (old : option A) (new : A) :
  next_write_ok fs = true -> fst (write_file fs old new) = Some new.
Proof. destruct fs as [|[] fs]; simpl; congruence. Qed.

Lemma write_file_cases {A : Type} (fs : list write_outcome) (old : option A) (new : A) :
  fst (write_file fs old new) = Some new \/ fst (write_file fs old new) = old
  \/ fst (write_file fs old new) = None.
Proof. destruct fs as [|[] fs]; simpl; auto. Qed.

(** A write that does not truncate leaves the new document or the old one,
    and the rest of the oracle does not truncate either. *)
Lemma write_file_kept {A : Type} (fs : list write_outcome) (old : option A) (new : A) :
  never_truncates fs = true ->
  (fst (write_file fs old new) = Some new \/ fst (write_file fs old new) = old) /\
  never_truncates (snd (write_file fs old new)) = true.
Proof. destruct fs as [|[] fs]; simpl; auto; discriminate. Qed.

Lemma faults_after_process now ev st :
  io_faults (_process_event cfg now ev st) =
  snd (write_file (io_faults st) (bot_data_file st)
         (<[trade_id ev :=
              update_trade cfg now ev
                (default (new_trade now) (get_trade_status st (trade_id ev)))]>
            (_load_bot_data st))).
Proof.
  unfold _process_event, _save_bot_data, mark_processed, get_trade_status.
  destruct (write_file _ _ _) as [f rest] eqn:E; simpl.
  destruct (_load_bot_data st !! trade_id ev); reflexivity.
Qed.

Lemma process_event_never_truncates now ev st :
  never_truncates (io_faults st) = true ->
  never_truncates (io_faults (_process_event cfg now ev st)) = true.
Proof.
  intros Hnt. rewrite faults_after_process.
  apply write_file_kept, Hnt.
Qed.

Lemma bot_data_after_process now ev st :
  bot_data_file (_process_event cfg now ev st) =
  fst (write_file (io_faults st) (bot_data_file st)
         (<[trade_id ev :=
              update_trade cfg now ev
                (default (new_trade now) (get_trade_status st (trade_id ev)))]>
            (_load_bot_data st))).
Proof.
  unfold _process_event, _save_bot_data, mark_processed, get_trade_status.
  destruct (write_file _ _ _) as [f rest] eqn:E; simpl.
  destruct (_load_bot_data st !! trade_id ev); reflexivity.
Qed.

(** After a successful write the trade of the event is the updated one. *)
Lemma process_event_lookup now ev st :
  next_write_ok (io_faults st) = true ->
  get_trade_status (_process_event cfg now ev st) (trade_id ev) =
  Some (update_trade cfg now ev
          (default (new_trade now) (get_trade_status st (trade_id ev)))).
Proof.
  intros Hw. unfold get_trade_status at 1, _load_bot_data at 1.
  rewrite bot_data_after_process, (write_file_ok _ _ _ Hw).
  apply lookup_insert_eq.
Qed.

(** Unless the write truncates the file, a trade read afterwards is the one
    read before or the updated trade of the event. *)
Lemma process_event_cases now ev st tid :
  never_truncates (io_faults st) = true ->
  get_trade_status (_process_event cfg now ev st) tid = get_trade_status st tid
  \/ (tid = trade_id ev /\
      get_trade_status (_process_event cfg now ev st) tid =
      Some (update_trade cfg now ev
              (default (new_trade now) (get_trade_status st tid)))).
Proof.
  intros Hnt.
  unfold get_trade_status at 1 3, _load_bot_data at 1 2.
  rewrite bot_data_after_process.
  destruct (write_file_kept (io_faults st) (bot_data_file st)
              (<[trade_id ev :=
                   update_trade cfg now ev
                     (default (new_trade now) (get_trade_status st (trade_id ev)))]>
                 (_load_bot_data st)) Hnt) as [[-> | ->] _].
  - destruct (decide (tid = trade_id ev)) as [-> | Hne].
    + right. split; [reflexivity|]. apply lookup_insert_eq.
    + left. rewrite lookup_insert_ne by congruence.
      unfold _load_bot_data. reflexivity.
  - left. reflexivity.
Qed.

(** A write that truncates the file loses every trade. *)
Lemma process_event_truncated now ev st rest tid :
  io_faults st = Truncated :: rest ->
  bot_data_file (_process_event cfg now ev st) = None /\
  get_trade_status (_process_event cfg now ev st) tid = None.
Proof.
  intros Hf.
  assert (H : bot_data_file (_process_event cfg now ev st) = None).
  { rewrite bot_data_after_process, Hf. reflexivity. }
  split; [exact H|].
  unfold get_trade_status, _load_bot_data. rewrite H. apply lookup_empty.
Qed.

Lemma update_trade_confirmations now ev t :
  confirmations (update_trade cfg now ev t) =
  Z.max (confirmations t) (confirmation_count ev).
Proof.
  unfold update_trade.
  destruct (Z.leb _ _); [|reflexivity].
  destruct (String.eqb _ PENDING), (String.eqb _ FINAL_CONFIRMATION); reflexivity.
Qed.

Lemma update_trade_status now ev t :
  status (update_trade cfg now ev t) =
  if Z.leb (confirmation_threshold cfg) (confirmation_count ev) then
    if String.eqb (event_type ev) FINAL_CONFIRMATION then COMPLETED
    else if String.eqb (status t) PENDING then CONFIRMED else status t
  else status t.
Proof.
  unfold update_trade.
  destruct (Z.leb _ _); [|reflexivity]. simpl.
  destruct (String.eqb (status t) PENDING), (String.eqb _ FINAL_CONFIRMATION);
    reflexivity.
Qed.

Lemma update_trade_confirmed_at now ev t :
  confirmed_at (update_trade cfg now ev t) =
  if Z.leb (confirmation_threshold cfg) (confirmation_count ev)
     && String.eqb (status t) PENDING
  then Some now else confirmed_at t.
Proof.
  unfold update_trade.
  destruct (Z.leb _ _); [|reflexivity]. simpl.
  destruct (String.eqb (status t) PENDING), (String.eqb _ FINAL_CONFIRMATION);
    reflexivity.
Qed.

Lemma update_trade_completed_at now ev t :
  completed_at (update_trade cfg now ev t) =
  if Z.leb (confirmation_threshold cfg) (confirmation_count ev)
     && String.eqb (event_type ev) FINAL_CONFIRMATION
  then Some now else completed_at t.
Proof.
  unfold update_trade.
  destruct (Z.leb _ _); [|reflexivity]. simpl.
  destruct (String.eqb (status t) PENDING), (String.eqb _ FINAL_CONFIRMATION);
    reflexivity.
Qed.

Lemma status_forward_refl s : status_forward s s.
Proof. intros r Hr. exists r. split; [assumption | lia]. Qed.

Lemma status_forward_trans s1 s2 s3 :
  status_forward s1 s2 -> status_forward s2 s3 -> status_forward s1 s3.
Proof.
  intros H12 H23 r Hr.
  destruct (H12 r Hr) as (r2 & Hr2 & Hle).
  destruct (H23 r2 Hr2) as (r3 & Hr3 & Hle').
  exists r3. split; [assumption | lia].
Qed.

Lemma status_rank_bound s r : status_rank s = Some r -> (r <= 2)%nat.
Proof.
  unfold status_rank.
  destruct (String.eqb s PENDING); [intros [= <-]; lia|].
  destruct (String.eqb s CONFIRMED); [intros [= <-]; lia|].
  destruct (String.eqb s COMPLETED); [intros [= <-]; lia|].
  discriminate.
Qed.

Lemma update_trade_forward now ev t :
  status_forward (status t) (status (update_trade cfg now ev t)).
Proof.
  rewrite update_trade_status.
  destruct (Z.leb _ _); [|apply status_forward_refl].
  destruct (String.eqb (event_type ev) FINAL_CONFIRMATION).
  - intros r Hr. exists 2%nat. split; [reflexivity|].
    eapply status_rank_bound; eassumption.
  - destruct (String.eqb_spec (status t) PENDING) as [-> | Hne];
      [|apply status_forward_refl].
    intros r [= <-]. exists 1%nat. split; [reflexivity | lia].
Qed.

(** One event never moves a stored trade backwards, unless its write
    truncates the file. *)
Lemma process_event_monotone now ev st tid t :
  never_truncates (io_faults st) = true ->
  get_trade_status st tid = Some t ->
  exists t', get_trade_status (_process_event cfg now ev st) tid = Some t' /\
             confirmations t <= confirmations t' /\
             status_forward (status t) (status t').
Proof.
  intros Hnt Ht.
  destruct (process_event_cases now ev st tid Hnt) as [-> | [_ ->]].
  - exists t. split; [assumption|]. split; [lia | apply status_forward_refl].
  - rewrite Ht. simpl. eexists. split; [reflexivity|].
    rewrite update_trade_confirmations.
    split; [lia | apply update_trade_forward].
Qed.

End TradeStateMachine.

Section TradeClaims.
Import Processor.

(** The scenario of the specification, run on the embedding: a first event
    with one confirmation creates the trade PENDING, a second one with three
    confirms it, a finality event with three completes it. *)
Example scenario_pending_confirmed_completed :
  let s0 := {| bot_data_file := None; dlq_file := None; event_queue := [];
               processed_events := ∅; io_faults := [] |} in
  let s1 := _process_event default_config "t1" (event_with 1 "confirmation") s0 in
  let s2 := _process_event default_config "t2" (event_with 3 "confirmation") s1 in
  let s3 := _process_event default_config "t3" (event_with 3 FINAL_CONFIRMATION) s2 in
  (status <$> get_trade_status s1 "trade_001",
   confirmations <$> get_trade_status s1 "trade_001") = (Some PENDING, Some 1) /\
  (status <$> get_trade_status s2 "trade_001",
   get_trade_status s2 "trade_001" ≫= confirmed_at) = (Some CONFIRMED, Some "t2") /\
  (status <$> get_trade_status s3 "trade_001",
   get_trade_status s3 "trade_001" ≫= completed_at) = (Some COMPLETED, Some "t3") /\
  (length ∘ events <$> get_trade_status s3 "trade_001") = Some 3%nat.
Proof. vm_compute. repeat split. Qed.

(** C1, as stated, fails: a finality-tagged event whose own
    [confirmation_count] is below the threshold does not complete a trade
    whose accumulated confirmations already meet the threshold. *)
Lemma C1_final_event_below_threshold_does_not_complete :
  ~ (forall (cfg : Config) (now : string) (ev : Event) (st : State) (t : Trade),
        io_faults st = [] ->
        get_trade_status st (trade_id ev) = Some t ->
        confirmation_threshold cfg <= confirmations t ->
        event_type ev = FINAL_CONFIRMATION ->
        exists t', get_trade_status (_process_event cfg now ev st) (trade_id ev)
                   = Some t' /\ status t' = COMPLETED).
Proof.
  intros H.
  destruct (H default_config "t3" (event_with 1 FINAL_CONFIRMATION)
              (store_with confirmed_trade) confirmed_trade)
    as (t' & Hget & Hst).
  - reflexivity.
  - apply lookup_singleton_eq.
  - simpl. lia.
  - reflexivity.
  - rewrite process_event_lookup in Hget by reflexivity.
    injection Hget as <-.
    rewrite update_trade_status in Hst. simpl in Hst. discriminate.
Qed.

(** C1, amended: the trade of an applied event becomes COMPLETED, with
    [completed_at] recorded, exactly when the event is tagged
    [final_confirmation] and its own [confirmation_count] reaches the
    threshold; any other event leaves [completed_at] as it was and does not
    make the trade COMPLETED; an ordinary event at or above the threshold
    leaves a PENDING or CONFIRMED trade CONFIRMED. *)
Theorem C1_completed_iff_final_event_at_threshold
    (cfg : Config) (now : string) (ev : Event) (st : State) :
  next_write_ok (io_faults st) = true ->
  let before := default (new_trade now) (get_trade_status st (trade_id ev)) in
  exists after,
    get_trade_status (_process_event cfg now ev st) (trade_id ev) = Some after /\
    (event_type ev = FINAL_CONFIRMATION /\
     confirmation_threshold cfg <= confirmation_count ev ->
     status after = COMPLETED /\ completed_at after = Some now) /\
    (~ (event_type ev = FINAL_CONFIRMATION /\
        confirmation_threshold cfg <= confirmation_count ev) ->
     completed_at after = completed_at before /\
     (status after = COMPLETED -> status before = COMPLETED)) /\
    (confirmation_threshold cfg <= confirmation_count ev ->
     event_type ev <> FINAL_CONFIRMATION ->
     status before = PENDING \/ status before = CONFIRMED ->
     status after = CONFIRMED).
Proof.
  intros Hw before. eexists. split; [apply process_event_lookup, Hw|].
  fold before.
  rewrite update_trade_status, update_trade_completed_at.
  destruct (Z.leb_spec (confirmation_threshold cfg) (confirmation_count ev)) as [Hle | Hlt];
    destruct (String.eqb_spec (event_type ev) FINAL_CONFIRMATION) as [Hfin | Hord];
    simpl.
  - repeat split; try tauto.
  - repeat split; try tauto.
    + destruct (String.eqb_spec (status before) PENDING); [discriminate | tauto].
    + intros _ _ [Hp | Hc]; [rewrite Hp; reflexivity|].
      rewrite Hc. reflexivity.
  - repeat split; try tauto; intros; lia.
  - repeat split; try tauto; intros; lia.
Qed.

Lemma C1_completed_iff_final_event_at_threshold_witness :
  next_write_ok (io_faults (store_with confirmed_trade)) = true /\
  exists after,
    get_trade_status
      (_process_event default_config "t3" (event_with 4 FINAL_CONFIRMATION)
         (store_with confirmed_trade)) "trade_001" = Some after /\
    status after = COMPLETED /\ completed_at after = Some "t3".
Proof.
  split; [reflexivity|].
  destruct (C1_completed_iff_final_event_at_threshold default_config "t3"
              (event_with 4 FINAL_CONFIRMATION) (store_with confirmed_trade))
    as (after & Hget & Hfin & _); [reflexivity|].
  exists after. split; [exact Hget|].
  apply Hfin. split; [reflexivity | simpl; lia].
Defined.

(** C3: across any sequence of events applied by the processor, whatever
    their order, the [confirmations] of a stored trade never decrease and
    its status never moves back on the path PENDING, CONFIRMED, COMPLETED,
    as long as no write leaves a truncated file behind (every write goes
    through or is refused when the file is opened); a single applied event
    whose write goes through sets [confirmations] to the maximum of the
    previous value and the event's [confirmation_count]. *)
Theorem C3_confirmations_and_status_never_regress
    (cfg : Config) (st : State) (tid : string) (t : Trade) :
  get_trade_status st tid = Some t ->
  (forall evs,
      never_truncates (io_faults st) = true ->
      exists t', get_trade_status (process_all cfg evs st) tid = Some t' /\
                 confirmations t <= confirmations t' /\
                 status_forward (status t) (status t')) /\
  (forall now ev,
      trade_id ev = tid -> next_write_ok (io_faults st) = true ->
      exists t', get_trade_status (_process_event cfg now ev st) tid = Some t' /\
                 confirmations t' = Z.max (confirmations t) (confirmation_count ev)).
Proof.
  intros Ht. split.
  - intros evs. revert st t Ht.
    induction evs as [|[now ev] evs IH]; intros st t Ht Hnt; simpl.
    + exists t. split; [assumption|]. split; [lia | apply status_forward_refl].
    + destruct (process_event_monotone cfg now ev st tid t Hnt Ht)
        as (t1 & Ht1 & Hc1 & Hs1).
      destruct (IH _ _ Ht1 (process_event_never_truncates cfg now ev st Hnt))
        as (t' & Ht' & Hc' & Hs').
      exists t'. split; [assumption|].
      split; [lia | eapply status_forward_trans; eassumption].
  - intros now ev <- Hw. eexists.
    split; [apply process_event_lookup, Hw|].
    rewrite update_trade_confirmations, Ht. reflexivity.
Qed.

Lemma C3_confirmations_and_status_never_regress_witness :
  let st := state_of (Some {[ "trade_001" := confirmed_trade ]}) [] []
              [Written; Refused] in
  get_trade_status st "trade_001" = Some confirmed_trade /\
  never_truncates (io_faults st) = true /\
  (exists t',
      get_trade_status
        (process_all default_config
           [("t3", event_with 1 "confirmation"); ("t4", event_with 2 FINAL_CONFIRMATION);
            ("t5", event_with 9 "confirmation")]
           st) "trade_001" = Some t' /\
      5 <= confirmations t' /\
      status_forward CONFIRMED (status t')) /\
  (exists t',
      get_trade_status (_process_event default_config "t3" (event_with 7 "confirmation") st)
        "trade_001" = Some t' /\
      confirmations t' = 7).
Proof.
  intros st.
  assert (H0 : get_trade_status st "trade_001" = Some confirmed_trade)
    by apply lookup_singleton_eq.
  split; [exact H0|]. split; [reflexivity|]. split.
  - exact (proj1 (C3_confirmations_and_status_never_regress default_config
                    st "trade_001" confirmed_trade H0)
             [("t3", event_with 1 "confirmation");
              ("t4", event_with 2 FINAL_CONFIRMATION);
              ("t5", event_with 9 "confirmation")] eq_refl).
  - exact (proj2 (C3_confirmations_and_status_never_regress default_config
                    st "trade_001" confirmed_trade H0)
             "t3" (event_with 7 "confirmation") eq_refl eq_refl).
Defined.

(** C7, as stated, fails: a finality-tagged event at the threshold takes a
    PENDING trade on to COMPLETED in the same call, so the trade is not
    left CONFIRMED. *)
Lemma C7_pending_trade_final_event_ends_completed :
  ~ (forall (cfg : Config) (now : string) (ev : Event) (st : State) (t : Trade),
        io_faults st = [] ->
        get_trade_status st (trade_id ev) = Some t ->
        status t = PENDING ->
        confirmation_threshold cfg <= confirmation_count ev ->
        exists t', get_trade_status (_process_event cfg now ev st) (trade_id ev)
                   = Some t' /\
                   status t' = CONFIRMED /\ confirmed_at t' = Some now).
Proof.
  intros H.
  destruct (H default_config "t3" (event_with 3 FINAL_CONFIRMATION)
              (store_with pending_trade) pending_trade)
    as (t' & Hget & Hst & _).
  - reflexivity.
  - apply lookup_singleton_eq.
  - reflexivity.
  - simpl. lia.
  - rewrite process_event_lookup in Hget by reflexivity.
    injection Hget as <-.
    rewrite update_trade_status in Hst. simpl in Hst. discriminate.
Qed.

(** C7, amended: for a trade whose status is PENDING (a trade created by
    the event included), an applied event whose [confirmation_count] is at
    least the threshold records [confirmed_at] and leaves the trade
    CONFIRMED, or COMPLETED when the event is tagged [final_confirmation];
    an event below the threshold leaves the trade PENDING and
    [confirmed_at] untouched. *)
Theorem C7_pending_confirmed_at_threshold
    (cfg : Config) (now : string) (ev : Event) (st : State) :
  next_write_ok (io_faults st) = true ->
  let before := default (new_trade now) (get_trade_status st (trade_id ev)) in
  status before = PENDING ->
  exists after,
    get_trade_status (_process_event cfg now ev st) (trade_id ev) = Some after /\
    (confirmation_threshold cfg <= confirmation_count ev ->
     confirmed_at after = Some now /\
     status after =
       if String.eqb (event_type ev) FINAL_CONFIRMATION
       then COMPLETED else CONFIRMED) /\
    (confirmation_count ev < confirmation_threshold cfg ->
     status after = PENDING /\ confirmed_at after = confirmed_at before).
Proof.
  intros Hw before Hp. eexists. split; [apply process_event_lookup, Hw|].
  fold before.
  rewrite update_trade_status, update_trade_confirmed_at, Hp.
  destruct (Z.leb_spec (confirmation_threshold cfg) (confirmation_count ev)) as [Hle | Hlt];
    simpl.
  - split; [|intros; lia]. intros _. split; reflexivity.
  - split; [intros; lia|]. intros _. split; reflexivity.
Qed.

Lemma C7_pending_confirmed_at_threshold_witness :
  (exists after,
      get_trade_status
        (_process_event default_config "t3" (event_with 3 "confirmation")
           (store_with pending_trade)) "trade_001" = Some after /\
      status after = CONFIRMED /\ confirmed_at after = Some "t3") /\
  (exists after,
      get_trade_status
        (_process_event default_config "t3" (event_with 2 "confirmation")
           (store_with pending_trade)) "trade_001" = Some after /\
      status after = PENDING).
Proof.
  split.
  - destruct (C7_pending_confirmed_at_threshold default_config "t3"
                (event_with 3 "confirmation") (store_with pending_trade))
      as (after & Hget & Hge & _); [reflexivity | reflexivity |].
    exists after. split; [exact Hget|].
    destruct Hge as [Hc Hs]; [simpl; lia|]. split; [exact Hs | exact Hc].
  - destruct (C7_pending_confirmed_at_threshold default_config "t3"
                (event_with 2 "confirmation") (store_with pending_trade))
      as (after & Hget & _ & Hlt); [reflexivity | reflexivity |].
    exists after. split; [exact Hget|].
    apply Hlt. simpl. lia.
Defined.

(** C9: FAILED is not terminal for the processor. A trade whose status is
    FAILED becomes COMPLETED, with [completed_at] recorded, when an event
    tagged [final_confirmation] with a [confirmation_count] at or above the
    threshold is applied. *)
Theorem C9_failed_trade_completed_by_final_event
    (cfg : Config) (now : string) (ev : Event) (st : State) (t : Trade) :
  next_write_ok (io_faults st) = true ->
  get_trade_status st (trade_id ev) = Some t ->
  status t = FAILED ->
  event_type ev = FINAL_CONFIRMATION ->
  confirmation_threshold cfg <= confirmation_count ev ->
  exists t',
    get_trade_status (_process_event cfg now ev st) (trade_id ev) = Some t' /\
    status t' = COMPLETED /\ completed_at t' = Some now.
Proof.
  intros Hw Ht _ Hfin Hle. eexists.
  split; [apply process_event_lookup, Hw|].
  rewrite update_trade_status, update_trade_completed_at, Ht, Hfin.
  apply Z.leb_le in Hle. rewrite Hle. split; reflexivity.
Qed.

Lemma C9_failed_trade_completed_by_final_event_witness :
  exists t',
    get_trade_status
      (_process_event default_config "t3" (event_with 3 FINAL_CONFIRMATION)
         (store_with failed_trade)) "trade_001" = Some t' /\
    status t' = COMPLETED /\ completed_at t' = Some "t3".
Proof.
  apply (C9_failed_trade_completed_by_final_event default_config "t3"
           (event_with 3 FINAL_CONFIRMATION) (store_with failed_trade) failed_trade).
  - reflexivity.
  - apply lookup_singleton_eq.
  - reflexivity.
  - reflexivity.
  - simpl. lia.
Defined.

End TradeClaims.

(** ** Event processor: retries and the dead-letter store *)

Section DeadLetter.
Import Processor.

Lemma retry_reraise_exhausted n f ev st st' e :
  failing_attempts (S n) f ev st st' e ->
  retry_reraise n f ev st = (st', Some e).
Proof.
  revert st. induction n as [|n IH]; intros st H.
  - simpl in *. rewrite H. reflexivity.
  - destruct H as (s1 & e1 & Hf & Hrest).
    cbn [retry_reraise]. rewrite Hf. apply IH, Hrest.
Qed.

Lemma pop_first_none eid l :
  (forall e, e ∈ l -> dl_event_id e <> eid) -> pop_first eid l = None.
Proof.
  induction l as [|x l IH]; intros H; simpl; [reflexivity|].
  destruct (String.eqb_spec (dl_event_id x) eid) as [Heq | _].
  - exfalso. apply (H x); [left | exact Heq].
  - rewrite IH; [reflexivity|]. intros e He. apply H. right. exact He.
Qed.

Lemma pop_first_last eid l x :
  (forall e, e ∈ l -> dl_event_id e <> eid) -> dl_event_id x = eid ->
  pop_first eid (l ++ [x]) = Some (x, l).
Proof.
  induction l as [|y l IH]; intros H Hx; simpl.
  - apply String.eqb_eq in Hx. rewrite Hx. reflexivity.
  - destruct (String.eqb_spec (dl_event_id y) eid) as [Heq | _].
    + exfalso. apply (H y); [left | exact Heq].
    + rewrite IH; [reflexivity | | exact Hx].
      intros e He. apply H. right. exact He.
Qed.

Lemma load_dlq_after_save st l :
  next_write_ok (io_faults st) = true -> _load_dlq (_save_dlq st l) = l.
Proof.
  intros Hw. unfold _load_dlq, _save_dlq.
  destruct (io_faults st) as [|[] fs]; simpl in *; congruence.
Qed.

(** Once the loop has run the tasks, their events are at the end of the
    queue, in the order of creation. *)
Lemma run_tasks_queue tasks st :
  event_queue (run_tasks tasks st) = (event_queue st ++ tasks)%list.
Proof.
  unfold run_tasks. revert st.
  induction tasks as [|ev tasks IH]; intros st; cbn [fold_left].
  - rewrite app_nil_r. reflexivity.
  - rewrite IH. cbn [enqueue_event event_queue]. rewrite <- app_assoc. reflexivity.
Qed.

(** [_save_dlq] touches the dead-letter file and the write oracle only. *)
Lemma save_dlq_frame st l :
  event_queue (_save_dlq st l) = event_queue st /\
  bot_data_file (_save_dlq st l) = bot_data_file st /\
  processed_events (_save_dlq st l) = processed_events st.
Proof.
  unfold _save_dlq. destruct (write_file _ _ _) as [f rest].
  repeat split; reflexivity.
Qed.

(** C10: [retry_dlq_event] called with an id that no dead-letter entry
    carries returns [False] and changes nothing: no entry is removed, no
    file is written, nothing is enqueued and no task is created, with or
    without a running event loop. *)
Theorem C10_retry_of_absent_id_is_a_no_op
    (loop_running : bool) (eid : string) (st : State) :
  (forall e, e ∈ get_dlq_events st -> dl_event_id e <> eid) ->
  retry_dlq_event loop_running eid st = (inl false, st, []).
Proof.
  intros H. unfold retry_dlq_event.
  rewrite pop_first_none by exact H. reflexivity.
Qed.

Lemma C10_retry_of_absent_id_is_a_no_op_witness :
  let st := {| bot_data_file := Some ∅;
               dlq_file := Some [dead_letter "t3" (event_with 1 "confirmation")
                                   "Test error" 5];
               event_queue := []; processed_events := ∅; io_faults := [] |} in
  retry_dlq_event true "nonexistent_evt" st = (inl false, st, []) /\
  retry_dlq_event false "nonexistent_evt" st = (inl false, st, []).
Proof.
  intros st.
  split; apply C10_retry_of_absent_id_is_a_no_op;
    intros e He; apply list_elem_of_singleton in He; subst e; discriminate.
Defined.

(** C5: when the five attempts of the retry wrapper all fail on a dequeued
    event, the consumer loop appends exactly one dead-letter entry; the
    entry holds the original event unchanged and the message of the last
    error.  The attempt count recorded in the entry, however, is 0 and not
    5: the wrapper re-raises the original exception, so the loop takes its
    [except Exception] branch, which passes 0, and never the
    [except RetryError] branch, which passes [self.max_retries].
    Replaying the entry by id removes it from the dead-letter file and
    leaves the queue as it was.  Under a running event loop the call
    returns [True] and has created one task, the enqueueing of the event
    with its [retry_count] one higher: the event is at the end of the queue
    once the loop has run the task.  Without a running loop the call raises
    after the entry was removed, and no task exists: the event is gone. *)
Theorem C5_exhausted_retries_dead_letter_round_trip
    (cfg : Config) (process : attempt_fn) (now : string)
    (ev : Event) (st st0 st1 : State) (msg : string) :
  dequeue st = Some (ev, st0) ->
  failing_attempts 5 process ev st0 st1 (PyException msg) ->
  dlq_file st1 = dlq_file st ->
  event_queue st1 = event_queue st0 ->
  io_faults st1 = [] ->
  (forall e, e ∈ get_dlq_events st -> dl_event_id e <> event_id ev) ->
  let st2 := process_queue_step cfg process now st in
  get_dlq_events st2 = (get_dlq_events st ++ [dead_letter now ev msg 0])%list /\
  exists st3,
    retry_dlq_event true (event_id ev) st2 = (inl true, st3, [resubmitted ev]) /\
    retry_dlq_event false (event_id ev) st2 =
      (inr (PyException "no running event loop"), st3, []) /\
    get_dlq_events st3 = get_dlq_events st /\
    event_queue st3 = event_queue st0 /\
    (forall later,
        event_queue (run_tasks [resubmitted ev] later) =
        (event_queue later ++ [resubmitted ev])%list).
Proof.
  intros Hdeq Hfail Hdlq Hq Hio Hfresh st2.
  assert (Hst2 : st2 = _handle_failed_event now ev (PyException msg) 0 st1).
  { unfold st2, process_queue_step, _process_event_with_retry.
    rewrite Hdeq. change (stop_after_attempt - 1)%nat with 4%nat.
    rewrite (retry_reraise_exhausted _ _ _ _ _ _ Hfail). reflexivity. }
  assert (Hload1 : _load_dlq st1 = _load_dlq st).
  { unfold _load_dlq. rewrite Hdlq. reflexivity. }
  assert (Hload2 : _load_dlq st2 = (_load_dlq st ++ [dead_letter now ev msg 0])%list).
  { rewrite Hst2. unfold _handle_failed_event.
    rewrite load_dlq_after_save by (rewrite Hio; reflexivity).
    rewrite Hload1. reflexivity. }
  assert (Hio2 : io_faults st2 = []).
  { rewrite Hst2. unfold _handle_failed_event, _save_dlq.
    rewrite Hio. reflexivity. }
  assert (Hq2 : event_queue st2 = event_queue st0).
  { rewrite Hst2. unfold _handle_failed_event.
    rewrite (proj1 (save_dlq_frame _ _)). exact Hq. }
  split; [exact Hload2|].
  exists (_save_dlq st2 (_load_dlq st)).
  unfold retry_dlq_event. rewrite Hload2.
  rewrite pop_first_last by (exact Hfresh || reflexivity).
  split; [reflexivity|]. split; [reflexivity|]. split.
  { apply load_dlq_after_save. rewrite Hio2. reflexivity. }
  split.
  { rewrite (proj1 (save_dlq_frame _ _)). exact Hq2. }
  intros later. apply run_tasks_queue.
Qed.

Lemma C5_exhausted_retries_dead_letter_round_trip_witness :
  let ev := event_with 1 "confirmation" in
  let st2 := process_queue_step default_config always_fail "t3" (queued ev) in
  get_dlq_events st2 = [dead_letter "t3" ev "Persistent failure" 0] /\
  exists st3,
    retry_dlq_event true "evt_001" st2 = (inl true, st3, [resubmitted ev]) /\
    retry_dlq_event false "evt_001" st2 =
      (inr (PyException "no running event loop"), st3, []) /\
    get_dlq_events st3 = [] /\
    event_queue st3 = [] /\
    (forall later,
        event_queue (run_tasks [resubmitted ev] later) =
        (event_queue later ++ [resubmitted ev])%list).
Proof.
  intros ev st2.
  apply (C5_exhausted_retries_dead_letter_round_trip default_config always_fail "t3"
           ev (queued ev)
           (state_of (Some ∅) [] [] [])
           (state_of (Some ∅) [] [] [])
           "Persistent failure").
  - reflexivity.
  - simpl. unfold always_fail.
    do 4 (do 2 eexists; split; [reflexivity|]). reflexivity.
  - reflexivity.
  - reflexivity.
  - reflexivity.
  - intros e He. simpl in He. apply elem_of_nil in He. destruct He.
Defined.

End DeadLetter.

(** ** Webhook receiver *)

Section WebhookReceiver.
Import Receiver.

Variable hmac_sha256_hex : string -> string -> string.
Variable json_loads : string -> option Payload.
Variable webhook_secret : string.

Local Abbreviation handle := (handle_webhook hmac_sha256_hex json_loads webhook_secret).
Local Abbreviation verify := (_verify_signature hmac_sha256_hex webhook_secret).

Lemma str_in_app x l1 l2 : str_in x (l1 ++ l2) = str_in x l1 || str_in x l2.
Proof.
  induction l1 as [|y l1 IH]; simpl; [reflexivity|].
  destruct (String.eqb y x); [reflexivity | exact IH].
Qed.

Lemma str_in_last x l : str_in x (l ++ [x]) = true.
Proof.
  rewrite str_in_app. simpl. rewrite String.eqb_refl.
  apply orb_true_r.
Qed.

(** The path of a new, well-formed delivery through the handler. *)
Lemma handle_webhook_accept now req st payload eid event :
  verify (body req) (default "" (signature_header req)) = true ->
  json_loads (body req) = Some payload ->
  p_event_id payload = Some eid -> eid <> "" ->
  in_ledger st eid = false ->
  _parse_event now payload = Some event ->
  handle now req st =
  (received_response eid event,
   _mark_processed
     (_save_events st {| events := events (_load_events st) ++ [event];
                         processed_ids := processed_ids (_load_events st) |})
     eid).
Proof.
  intros Hsig Hjson Hid Hne Hnew Hparse.
  unfold handle_webhook. rewrite Hsig, Hjson, Hid. simpl.
  destruct eid as [|c eid]; [congruence|].
  unfold _check_idempotency. unfold in_ledger in Hnew. rewrite Hnew. simpl.
  rewrite Hparse. reflexivity.
Qed.

(** Only that path ends in a "received" acknowledgement. *)
Lemma handle_webhook_received now req st :
  is_received (fst (handle now req st)) = true ->
  exists payload eid event,
    verify (body req) (default "" (signature_header req)) = true /\
    json_loads (body req) = Some payload /\
    p_event_id payload = Some eid /\ eid <> "" /\
    in_ledger st eid = false /\
    _parse_event now payload = Some event.
Proof.
  unfold handle_webhook.
  destruct (verify _ _) eqn:Hsig; simpl; [|discriminate].
  destruct (json_loads (body req)) as [payload|] eqn:Hjson; [|discriminate].
  destruct (p_event_id payload) as [[|c eid]|] eqn:Hid; try discriminate.
  unfold _check_idempotency, in_ledger.
  destruct (str_in _ _) eqn:Hnew; simpl; [discriminate|].
  destruct (_parse_event now payload) as [event|] eqn:Hparse; [|discriminate].
  intros _. exists payload, (String c eid), event.
  repeat split; try assumption; try reflexivity. discriminate.
Qed.

(** With no write fault the two writes of an accepted delivery leave the
    event at the end of the store and its id at the end of the ledger. *)
Lemma accept_state_no_fault st eid event :
  io_faults st = [] ->
  in_ledger st eid = false ->
  _mark_processed
    (_save_events st {| events := events (_load_events st) ++ [event];
                        processed_ids := processed_ids (_load_events st) |})
    eid =
  {| events_file := Some {| events := events (_load_events st) ++ [event];
                            processed_ids := processed_ids (_load_events st) ++ [eid] |};
     io_faults := [] |}.
Proof.
  intros Hio Hnew. unfold in_ledger in Hnew.
  unfold _save_events. rewrite Hio. simpl.
  unfold _mark_processed. cbn [_load_events events_file processed_ids events].
  rewrite Hnew. reflexivity.
Qed.


(** C2, amended: storing the event and marking its id are two separate
    writes, and the acknowledgement does not depend on them: the response is
    the same whatever the writes do.  When no write fails, a "received"
    acknowledgement means that the store holds the event and the ledger its
    id. *)
Theorem C2_received_implies_stored_when_writes_succeed
    (now : string) (req : Request) (st : State) :
  is_received (fst (handle now req st)) = true ->
  (forall faults,
      fst (handle now req {| events_file := events_file st; io_faults := faults |})
      = fst (handle now req st)) /\
  (io_faults st = [] ->
   exists eid event,
     fst (handle now req st) = received_response eid event /\
     event_id event = eid /\
     stored (snd (handle now req st)) eid = true /\
     in_ledger (snd (handle now req st)) eid = true).
Proof.
  intros Hrec.
  destruct (handle_webhook_received now req st Hrec)
    as (payload & eid & event & Hsig & Hjson & Hid & Hne & Hnew & Hparse).
  split.
  - intros faults.
    rewrite (handle_webhook_accept now req st payload eid event) by assumption.
    rewrite (handle_webhook_accept now req _ payload eid event) by assumption.
    reflexivity.
  - intros Hio. exists eid, event.
    rewrite (handle_webhook_accept now req st payload eid event) by assumption.
    rewrite accept_state_no_fault by assumption.
    assert (Heid : event_id event = eid).
    { unfold _parse_event in Hparse.
      repeat match type of Hparse with
             | (if ?b then _ else _) = _ => destruct b
             end;
        try discriminate; injection Hparse as <-; simpl; rewrite Hid; reflexivity. }
    split; [reflexivity|]. split; [exact Heid|]. split.
    + unfold stored. cbn [snd _load_events events_file events].
      rewrite existsb_app. simpl. rewrite Heid, String.eqb_refl.
      rewrite orb_true_r. reflexivity.
    + unfold in_ledger. cbn [snd _load_events events_file processed_ids].
      apply str_in_last.
Qed.

End WebhookReceiver.

Section WebhookReceiverInstances.
Import Receiver.

Local Abbreviation sample_handle := (handle_webhook no_hmac sample_loads "").


(** C2, as stated, fails: when the two writes both fail, the handler still
    acknowledges the delivery as "received", and neither the store nor the
    ledger holds the event. *)
Lemma C2_received_acknowledged_without_persisting :
  ~ (forall (hmac_sha256_hex : string -> string -> string)
            (json_loads : string -> option Payload) (webhook_secret now : string)
            (req : Request) (st : State) (eid : string),
        let out := handle_webhook hmac_sha256_hex json_loads webhook_secret now req st in
        is_received (fst out) = true ->
        assoc_get "event_id" (json_body (fst out)) = Some eid ->
        stored (snd out) eid = true /\ in_ledger (snd out) eid = true).
Proof.
  intros H.
  destruct (H no_hmac sample_loads "" "t1" sample_request
              (empty_store [Refused; Refused]) "evt_eth_001") as [Hstored _].
  - reflexivity.
  - reflexivity.
  - vm_compute in Hstored. discriminate.
Qed.

Lemma C2_received_implies_stored_when_writes_succeed_witness :
  is_received (fst (sample_handle "t1" sample_request (empty_store []))) = true /\
  exists eid event,
    fst (sample_handle "t1" sample_request (empty_store [])) = received_response eid event /\
    event_id event = eid /\
    stored (snd (sample_handle "t1" sample_request (empty_store []))) eid = true /\
    in_ledger (snd (sample_handle "t1" sample_request (empty_store []))) eid = true.
Proof.
  split; [reflexivity|].
  apply (C2_received_implies_stored_when_writes_succeed no_hmac sample_loads ""
           "t1" sample_request (empty_store [])); reflexivity.
Defined.

End WebhookReceiverInstances.

(** ** RPC client *)

Section RpcClient.
Import Rpc.

Variable float_pow : Q -> nat -> option Q.

(** A failure with a handler is caught and kept as the typed fault of its
    handler. *)
Lemma attempt_once_handled c x :
  handled_failure (http_request (timeout c) x) = true ->
  exists e,
    attempt_once c x = Caught e /\
    typed_fault e = true /\
    match http_request (timeout c) x with
    | TimedOut => e = RPCTimeoutError (timeout c)
    | ClientErr m => e = RPCConnectionError ("Connection error: " ++ m)
    | Got _ d =>
        exists fields,
          assoc_get "error" d = Some (JObj fields) /\
          e = RPCError (default (JStr "Unknown error") (assoc_get "message" fields))
    | Raised _ => False
    end.
Proof.
  unfold attempt_once, handled_failure.
  destruct (http_request (timeout c) x) as [status d| |m|m]; try discriminate.
  - destruct (assoc_get "error" d) as [[]|]; try discriminate.
    intros _. eexists. split; [reflexivity|]. split; [reflexivity|].
    eexists. split; reflexivity.
  - intros _. eexists. repeat split.
  - intros _. eexists. repeat split.
Qed.

(** A failure without handler leaves the attempt as it was raised. *)
Lemma attempt_once_unhandled c x e :
  match http_request (timeout c) x with
  | Raised m => e = OtherException m
  | Got _ d =>
      (exists v, assoc_get "error" d = Some v /\ v <> JNull /\
                 forall fields, v <> JObj fields) /\
      e = OtherException "AttributeError"
  | _ => False
  end ->
  attempt_once c x = Uncaught e /\ typed_fault e = false.
Proof.
  unfold attempt_once.
  destruct (http_request (timeout c) x) as [status d| |m|m]; try contradiction.
  - intros [(v & -> & Hnull & Hobj) ->].
    destruct v; try (split; reflexivity).
    + congruence.
    + exfalso. eapply Hobj. reflexivity.
  - intros ->. split; reflexivity.
Qed.

Lemma attempt_once_caught_typed c x e :
  attempt_once c x = Caught e -> typed_fault e = true.
Proof.
  unfold attempt_once.
  destruct (http_request (timeout c) x) as [status d| |m|m]; try discriminate.
  - destruct (assoc_get "error" d) as [[]|]; try discriminate.
    intros [= <-]. reflexivity.
  - intros [= <-]. reflexivity.
  - intros [= <-]. reflexivity.
Qed.

(** The loop on a run of attempts that are all caught, with every wait
    computed: it follows the schedule and ends by raising the last error
    kept. *)
Lemma request_loop_all_caught c url payload net errs w :
  forall remaining attempt last_error,
    max_retries c = Z.of_nat (attempt + remaining) ->
    (forall k, (attempt <= k < attempt + remaining)%nat ->
               attempt_once c (net k) = Caught (errs k)) ->
    (forall k, (attempt <= k)%nat -> (S k < attempt + remaining)%nat ->
               float_pow (backoff_factor c) k = Some (w k)) ->
    request_loop float_pow c url payload net remaining attempt last_error =
    (inr (match remaining with
          | O => default (RPCConnectionError "Failed to connect to RPC endpoint")
                   last_error
          | S r => errs (attempt + r)%nat
          end),
     retry_schedule w (Request url payload (timeout c)) remaining attempt).
Proof.
  induction remaining as [|r IH]; intros attempt last_error Hmax Hall Hw.
  - reflexivity.
  - cbn [request_loop].
    rewrite (Hall attempt) by lia.
    rewrite (IH (S attempt) (Some (errs attempt)));
      [| lia | intros k Hk; apply Hall; lia | intros k Hk Hk'; apply Hw; lia].
    destruct r as [|r'].
    + replace (Z.ltb (Z.of_nat attempt) (max_retries c - 1)) with false
        by (symmetry; apply Z.ltb_ge; lia).
      simpl. replace (attempt + 0)%nat with attempt by lia. reflexivity.
    + replace (Z.ltb (Z.of_nat attempt) (max_retries c - 1)) with true
        by (symmetry; apply Z.ltb_lt; lia).
      unfold wait_time. rewrite (Hw attempt) by lia.
      cbn [retry_schedule default].
      replace (S attempt + r')%nat with (attempt + S r')%nat by lia. reflexivity.
Qed.

(** The loop on a run of caught failures followed by an attempt that leaves
    the loop: by returning, by an exception no handler matches, or by the
    overflow of the wait computed after a caught failure. *)
Lemma request_loop_leaves c url payload net errs w res :
  forall k remaining attempt last_error,
    (k < remaining)%nat ->
    max_retries c = Z.of_nat (attempt + remaining) ->
    (forall j, (attempt <= j < attempt + k)%nat ->
               attempt_once c (net j) = Caught (errs j)) ->
    (forall j, (attempt <= j < attempt + k)%nat ->
               float_pow (backoff_factor c) j = Some (w j)) ->
    match attempt_once c (net (attempt + k)%nat) with
    | Returned d => res = inl d
    | Uncaught e => res = inr e
    | Caught _ =>
        (S k < remaining)%nat /\
        float_pow (backoff_factor c) (attempt + k)%nat = None /\
        res = inr (OtherException "OverflowError")
    end ->
    request_loop float_pow c url payload net remaining attempt last_error =
    (res, retry_schedule w (Request url payload (timeout c)) (S k) attempt).
Proof.
  induction k as [|k IH]; intros remaining attempt last_error Hlt Hmax Hall Hw Hend.
  - destruct remaining as [|r]; [lia|].
    replace (attempt + 0)%nat with attempt in Hend by lia.
    cbn [request_loop retry_schedule].
    destruct (attempt_once c (net attempt)); [subst res; reflexivity | |
                                              subst res; reflexivity].
    destruct Hend as (Hmore & Hover & ->).
    replace (Z.ltb (Z.of_nat attempt) (max_retries c - 1)) with true
      by (symmetry; apply Z.ltb_lt; lia).
    unfold wait_time. rewrite Hover. reflexivity.
  - destruct remaining as [|r]; [lia|].
    cbn [request_loop]. rewrite (Hall attempt) by lia.
    rewrite (IH r (S attempt) (Some (errs attempt)));
      [| lia | lia | intros j Hj; apply Hall; lia | intros j Hj; apply Hw; lia |].
    + replace (Z.ltb (Z.of_nat attempt) (max_retries c - 1)) with true
        by (symmetry; apply Z.ltb_lt; lia).
      unfold wait_time. rewrite (Hw attempt) by lia. reflexivity.
    + replace (S attempt + k)%nat with (attempt + S k)%nat by lia.
      destruct (attempt_once c (net (attempt + S k)%nat)); try exact Hend.
      destruct Hend as (Hmore & Hover & ->). split; [lia|]. split; [exact Hover|].
      reflexivity.
Qed.

Lemma retry_schedule_requests w req remaining attempt :
  is_request req = true ->
  requests (retry_schedule w req remaining attempt) = repeat req remaining.
Proof.
  intros Hreq. revert attempt.
  induction remaining as [|r IH]; intros attempt; [reflexivity|].
  destruct r as [|r'].
  - simpl. rewrite Hreq. reflexivity.
  - change (retry_schedule w req (S (S r')) attempt)
      with (req :: Sleep (w attempt) :: retry_schedule w req (S r') (S attempt)).
    unfold requests in *. cbn [List.filter is_request]. rewrite Hreq, IH. reflexivity.
Qed.

Lemma retry_schedule_sleeps w req remaining attempt :
  is_request req = true ->
  sleeps (retry_schedule w req (S remaining) attempt) =
  map w (seq attempt remaining).
Proof.
  intros Hreq. revert attempt.
  induction remaining as [|r IH]; intros attempt.
  - simpl. destruct req; [reflexivity | discriminate].
  - change (retry_schedule w req (S (S r)) attempt)
      with (req :: Sleep (w attempt) :: retry_schedule w req (S r) (S attempt)).
    destruct req; [|discriminate].
    cbn [sleeps seq map]. rewrite IH. reflexivity.
Qed.

(** C6: a call whose [max_retries] attempts all meet a failure with a
    handler (a time-out, an [aiohttp.ClientError], a reply with a JSON-RPC
    error object) and whose waits [backoff_factor ** attempt] are all
    computed makes exactly [max_retries] requests, sleeps
    [backoff_factor ** attempt] after each attempt but the last, with
    [attempt] counted from zero, so [max_retries - 1] times, and then raises
    the failure of the last attempt as the typed fault of its handler:
    [RPCTimeoutError], [RPCConnectionError] or [RPCError].
    A failing call outside these cases is not retried to the end and raises
    no typed fault.  A failure without handler (a body that is not JSON, an
    [error] member that is neither null nor an object) leaves the call at
    the attempt where it occurs, as the exception that was raised, with no
    later request although attempts remain.  A wait whose power overflows
    leaves the call with [OverflowError] after the attempt it follows. *)
Theorem C6_failing_call_retries_with_backoff_then_raises
    (c : RPCClient) (url : string) (payload : json) (net : nat -> Exchange)
    (n : nat) (w : nat -> Q) :
  url <> "" ->
  max_retries c = Z.of_nat (S n) ->
  let req := Request url payload (timeout c) in
  let call := _make_request float_pow c (Some url) payload net in
  ((forall k, (k <= n)%nat ->
              handled_failure (http_request (timeout c) (net k)) = true) ->
   (forall k, (k < n)%nat -> float_pow (backoff_factor c) k = Some (w k)) ->
   exists e,
     call = (inr e, retry_schedule w req (S n) 0) /\
     match http_request (timeout c) (net n) with
     | TimedOut => e = RPCTimeoutError (timeout c)
     | ClientErr m => e = RPCConnectionError ("Connection error: " ++ m)
     | Got _ d =>
         exists fields,
           assoc_get "error" d = Some (JObj fields) /\
           e = RPCError (default (JStr "Unknown error") (assoc_get "message" fields))
     | Raised _ => False
     end /\
     typed_fault e = true /\
     requests (retry_schedule w req (S n) 0) = repeat req (S n) /\
     sleeps (retry_schedule w req (S n) 0) = map w (seq 0 n)) /\
  (forall k e,
      (k <= n)%nat ->
      (forall j, (j < k)%nat ->
                 handled_failure (http_request (timeout c) (net j)) = true) ->
      (forall j, (j < k)%nat -> float_pow (backoff_factor c) j = Some (w j)) ->
      match http_request (timeout c) (net k) with
      | Raised m => e = OtherException m
      | Got _ d =>
          (exists v, assoc_get "error" d = Some v /\ v <> JNull /\
                     forall fields, v <> JObj fields) /\
          e = OtherException "AttributeError"
      | _ => False
      end ->
      call = (inr e, retry_schedule w req (S k) 0) /\
      typed_fault e = false /\
      requests (retry_schedule w req (S k) 0) = repeat req (S k) /\
      sleeps (retry_schedule w req (S k) 0) = map w (seq 0 k)) /\
  (forall k,
      (k < n)%nat ->
      (forall j, (j <= k)%nat ->
                 handled_failure (http_request (timeout c) (net j)) = true) ->
      (forall j, (j < k)%nat -> float_pow (backoff_factor c) j = Some (w j)) ->
      float_pow (backoff_factor c) k = None ->
      call = (inr (OtherException "OverflowError"), retry_schedule w req (S k) 0) /\
      requests (retry_schedule w req (S k) 0) = repeat req (S k) /\
      sleeps (retry_schedule w req (S k) 0) = map w (seq 0 k)).
Proof.
  intros Hurl Hmax req call.
  set (errs := fun k => match attempt_once c (net k) with
                        | Caught e => e
                        | _ => OtherException ""
                        end).
  assert (Herrs : forall k, handled_failure (http_request (timeout c) (net k)) = true ->
                            attempt_once c (net k) = Caught (errs k)).
  { intros k Hk. destruct (attempt_once_handled c (net k) Hk) as (e & He & _).
    unfold errs. rewrite He. reflexivity. }
  assert (Hcall : call = request_loop float_pow c url payload net (S n) 0 None).
  { unfold call, _make_request. destruct url as [|ch url]; [congruence|].
    rewrite Hmax, Nat2Z.id. reflexivity. }
  split; [|split].
  - intros Hall Hw.
    destruct (attempt_once_handled c (net n) (Hall n (le_n n))) as (e & He & Hty & Hcls).
    exists e. split.
    { rewrite Hcall.
      rewrite (request_loop_all_caught c url payload net errs w (S n) 0%nat None);
        [| exact Hmax | intros k Hk; apply Herrs, Hall; lia
         | intros k _ Hk; apply Hw; lia].
      cbn [Nat.add].
      pose proof (Herrs n (Hall n (le_n n))) as Hn. rewrite He in Hn.
      injection Hn as ->. reflexivity. }
    split; [exact Hcls|]. split; [exact Hty|].
    split; [apply retry_schedule_requests; reflexivity|].
    apply retry_schedule_sleeps. reflexivity.
  - intros k e Hk Hall Hw Hbad.
    destruct (attempt_once_unhandled c (net k) e Hbad) as [He Hty].
    split.
    { rewrite Hcall.
      apply (request_loop_leaves c url payload net errs w (inr e) k); try lia.
      - intros j Hj. apply Herrs, Hall. lia.
      - intros j Hj. apply Hw. lia.
      - cbn [Nat.add]. rewrite He. reflexivity. }
    split; [exact Hty|].
    split; [apply retry_schedule_requests; reflexivity|].
    apply retry_schedule_sleeps. reflexivity.
  - intros k Hk Hall Hw Hover.
    split.
    { rewrite Hcall.
      apply (request_loop_leaves c url payload net errs w _ k); try lia.
      - intros j Hj. apply Herrs, Hall. lia.
      - intros j Hj. apply Hw. lia.
      - cbn [Nat.add]. rewrite (Herrs k) by (apply Hall; lia).
        split; [lia|]. split; [exact Hover | reflexivity]. }
    split; [apply retry_schedule_requests; reflexivity|].
    apply retry_schedule_sleeps. reflexivity.
Qed.


End RpcClient.

Section RpcClientInstances.
Import Rpc.

Lemma C6_failing_call_retries_with_backoff_then_raises_witness :
  let url := "http://localhost:8545" in
  let req := Request url JNull (10 # 1) in
  _make_request sample_pow sample_client (Some url) JNull refusing =
    (inr (RPCConnectionError "Connection error: Connection refused"),
     [req; Sleep (1 # 1); req; Sleep (2 # 1); req]) /\
  _make_request sample_pow sample_client (Some url) JNull malformed =
    (inr (OtherException "Invalid JSON"), [req]) /\
  _make_request sample_pow sample_client (Some url) JNull error_text_reply =
    (inr (OtherException "AttributeError"), [req]) /\
  _make_request sample_pow steep_client (Some url) JNull refusing =
    (inr (OtherException "OverflowError"),
     [req; Sleep (1 # 1); req; Sleep (inject_Z (2 ^ 700)); req]).
Proof.
  intros url req.
  pose (w := fun k : nat => Qpower (2 # 1) (Z.of_nat k)).
  pose (w' := fun k : nat => Qpower (inject_Z (2 ^ 700)) (Z.of_nat k)).
  split; [|split; [|split]].
  - destruct (C6_failing_call_retries_with_backoff_then_raises sample_pow sample_client
                url JNull refusing 2 w) as [Hall _]; [discriminate | reflexivity |].
    destruct Hall as (e & Hcall & Hcls & _).
    + intros k _. reflexivity.
    + intros k Hk. destruct k as [|[|k]]; [reflexivity | reflexivity | lia].
    + vm_compute in Hcls. subst e. exact Hcall.
  - destruct (C6_failing_call_retries_with_backoff_then_raises sample_pow sample_client
                url JNull malformed 2 w) as (_ & Hbad & _);
      [discriminate | reflexivity |].
    destruct (Hbad 0%nat (OtherException "Invalid JSON")) as [Hcall _].
    + lia.
    + intros j Hj. lia.
    + intros j Hj. lia.
    + reflexivity.
    + exact Hcall.
  - destruct (C6_failing_call_retries_with_backoff_then_raises sample_pow sample_client
                url JNull error_text_reply 2 w) as (_ & Hbad & _);
      [discriminate | reflexivity |].
    destruct (Hbad 0%nat (OtherException "AttributeError")) as [Hcall _].
    + lia.
    + intros j Hj. lia.
    + intros j Hj. lia.
    + cbn. split; [|reflexivity].
      exists (JStr "Internal Server Error").
      split; [reflexivity|]. split; [discriminate | intros fields; discriminate].
    + exact Hcall.
  - destruct (C6_failing_call_retries_with_backoff_then_raises sample_pow steep_client
                url JNull refusing 3 w') as (_ & _ & Hover);
      [discriminate | reflexivity |].
    destruct (Hover 2%nat) as [Hcall _].
    + lia.
    + intros j _. reflexivity.
    + intros j Hj. destruct j as [|[|j]]; [reflexivity | reflexivity | lia].
    + reflexivity.
    + exact Hcall.
Defined.



End RpcClientInstances.

(** ** Event processor: what a sequence of events does to one trade *)

Section TradeHistory.
Import Processor.

Variable cfg : Config.

Lemma process_event_frame now ev st tid :
  never_truncates (io_faults st) = true ->
  tid <> trade_id ev ->
  get_trade_status (_process_event cfg now ev st) tid = get_trade_status st tid.
Proof.
  intros Hnt Hne.
  destruct (process_event_cases cfg now ev st tid Hnt) as [H | [Heq _]];
    [exact H | contradiction].
Qed.

Lemma process_event_no_fault now ev st :
  io_faults st = [] -> io_faults (_process_event cfg now ev st) = [].
Proof.
  intros Hio. unfold _process_event, _save_bot_data, mark_processed.
  rewrite Hio. reflexivity.
Qed.

Lemma processed_after_process now ev st :
  processed_events (_process_event cfg now ev st) =
  <[event_id ev := ev]> (processed_events st).
Proof.
  unfold _process_event, _save_bot_data, mark_processed.
  destruct (write_file _ _ _). reflexivity.
Qed.

Lemma events_of_cons tid now ev rest :
  events_of tid ((now, ev) :: rest) =
  if String.eqb (trade_id ev) tid then ev :: events_of tid rest
  else events_of tid rest.
Proof. reflexivity. Qed.

Lemma final_status_step now ev evs t :
  final_status cfg evs (status (update_trade cfg now ev t)) =
  final_status cfg (ev :: evs) (status t).
Proof.
  rewrite update_trade_status. unfold final_status, completes, reaches_threshold.
  cbn [existsb].
  destruct (Z.leb (confirmation_threshold cfg) (confirmation_count ev));
    [|reflexivity].
  destruct (String.eqb (event_type ev) FINAL_CONFIRMATION); cbn [andb orb].
  - destruct (existsb _ evs); reflexivity.
  - destruct (existsb (fun e => _ && _) evs); [reflexivity|].
    destruct (String.eqb (status t) PENDING) eqn:Hp; [reflexivity|].
    rewrite Hp. reflexivity.
Qed.

Lemma update_trade_events now ev t :
  events (update_trade cfg now ev t) = (events t ++ [summary_of ev])%list.
Proof.
  unfold update_trade.
  destruct (Z.leb _ _); [|reflexivity].
  destruct (String.eqb _ PENDING), (String.eqb _ FINAL_CONFIRMATION); reflexivity.
Qed.

Lemma update_trade_created_at now ev t :
  created_at (update_trade cfg now ev t) = created_at t.
Proof.
  unfold update_trade.
  destruct (Z.leb _ _); [|reflexivity].
  destruct (String.eqb _ PENDING), (String.eqb _ FINAL_CONFIRMATION); reflexivity.
Qed.

(** With every write going through, the trade read after a sequence of
    events is determined field by field by the events of that trade. *)
Lemma process_all_trade evs :
  forall st tid t,
    io_faults st = [] ->
    get_trade_status st tid = Some t ->
    exists t',
      get_trade_status (process_all cfg evs st) tid = Some t' /\
      status t' = final_status cfg (events_of tid evs) (status t) /\
      confirmations t' = max_confirmations (events_of tid evs) (confirmations t) /\
      events t' = (events t ++ map summary_of (events_of tid evs))%list /\
      created_at t' = created_at t.
Proof.
  induction evs as [|[now ev] evs IH]; intros st tid t Hio Ht.
  - exists t. split; [exact Ht|]. cbn.
    unfold final_status. cbn. rewrite andb_false_r, app_nil_r. auto.
  - cbn [process_all]. rewrite events_of_cons.
    destruct (String.eqb_spec (trade_id ev) tid) as [Heq | Hne].
    + subst tid.
      assert (H1 : get_trade_status (_process_event cfg now ev st) (trade_id ev)
                   = Some (update_trade cfg now ev t)).
      { rewrite process_event_lookup by (rewrite Hio; reflexivity).
        rewrite Ht. reflexivity. }
      destruct (IH _ _ _ (process_event_no_fault now ev st Hio) H1)
        as (t' & Hget & Hs & Hc & He & Hcr).
      exists t'. split; [exact Hget|].
      rewrite Hs, Hc, He, Hcr.
      rewrite final_status_step, update_trade_confirmations,
        update_trade_events, update_trade_created_at.
      cbn [map max_confirmations fold_left]. rewrite <- app_assoc.
      auto.
    + assert (H1 : get_trade_status (_process_event cfg now ev st) tid = Some t).
      { rewrite process_event_frame by (congruence || (rewrite Hio; reflexivity)).
        exact Ht. }
      exact (IH _ _ _ (process_event_no_fault now ev st Hio) H1).
Qed.

Lemma events_of_perm tid evs1 evs2 :
  Permutation evs1 evs2 -> Permutation (events_of tid evs1) (events_of tid evs2).
Proof.
  induction 1 as [|[now ev] l1 l2 _ IH|[n1 e1] [n2 e2] l|l1 l2 l3 _ IH1 _ IH2].
  - constructor.
  - rewrite !events_of_cons. destruct (String.eqb (trade_id ev) tid);
      [constructor|]; exact IH.
  - rewrite !events_of_cons.
    destruct (String.eqb (trade_id e1) tid), (String.eqb (trade_id e2) tid);
      try reflexivity. constructor.
  - etransitivity; eassumption.
Qed.

Lemma existsb_perm {A : Type} (f : A -> bool) l1 l2 :
  Permutation l1 l2 -> existsb f l1 = existsb f l2.
Proof.
  induction 1 as [|x l1 l2 _ IH|x y l|l1 l2 l3 _ IH1 _ IH2]; cbn.
  - reflexivity.
  - rewrite IH. reflexivity.
  - destruct (f x), (f y); reflexivity.
  - congruence.
Qed.

Lemma max_confirmations_perm l1 l2 :
  Permutation l1 l2 -> forall c, max_confirmations l1 c = max_confirmations l2 c.
Proof.
  unfold max_confirmations.
  induction 1 as [|x l1 l2 _ IH|x y l|l1 l2 l3 _ IH1 _ IH2]; intros c; cbn.
  - reflexivity.
  - apply IH.
  - f_equal. lia.
  - rewrite IH1. apply IH2.
Qed.

(** A sequence of events none of which belongs to a trade leaves that trade
    exactly as it was, whether the writes go through or are refused, as
    long as none leaves a truncated file behind. *)
Theorem trade_untouched_by_events_of_other_trades
    (evs : list (string * Event)) (st : State) (tid : string) :
  never_truncates (io_faults st) = true ->
  events_of tid evs = [] ->
  get_trade_status (process_all cfg evs st) tid = get_trade_status st tid.
Proof.
  revert st. induction evs as [|[now ev] evs IH]; intros st Hnt Hnone; [reflexivity|].
  rewrite events_of_cons in Hnone. cbn [process_all].
  destruct (String.eqb_spec (trade_id ev) tid) as [_ | Hne]; [discriminate|].
  rewrite IH by (exact Hnone || apply process_event_never_truncates, Hnt).
  apply process_event_frame; [exact Hnt | congruence].
Qed.

(** The history of a trade is append-only: after any sequence of events,
    with every write going through, it is the old history followed by one
    summary per event of the trade, in the order of application; the
    creation time is never rewritten. *)
Theorem trade_history_is_append_only
    (evs : list (string * Event)) (st : State) (tid : string) (t : Trade) :
  io_faults st = [] ->
  get_trade_status st tid = Some t ->
  exists t',
    get_trade_status (process_all cfg evs st) tid = Some t' /\
    events t' = (events t ++ map summary_of (events_of tid evs))%list /\
    length (events t') = (length (events t) + length (events_of tid evs))%nat /\
    created_at t' = created_at t.
Proof.
  intros Hio Ht.
  destruct (process_all_trade evs st tid t Hio Ht) as (t' & Hget & _ & _ & He & Hcr).
  exists t'. split; [exact Hget|]. split; [exact He|]. split; [|exact Hcr].
  rewrite He, length_app, length_map. reflexivity.
Qed.

(** What a trade ends as is read off the set of its events: COMPLETED when
    one of them is finality-tagged with a count at the threshold; otherwise
    CONFIRMED when it was PENDING and one of them reached the threshold;
    otherwise the status it had; its confirmations are the largest count
    seen. *)
Theorem trade_status_after_sequence
    (evs : list (string * Event)) (st : State) (tid : string) (t : Trade) :
  io_faults st = [] ->
  get_trade_status st tid = Some t ->
  exists t',
    get_trade_status (process_all cfg evs st) tid = Some t' /\
    status t' = final_status cfg (events_of tid evs) (status t) /\
    confirmations t' = max_confirmations (events_of tid evs) (confirmations t).
Proof.
  intros Hio Ht.
  destruct (process_all_trade evs st tid t Hio Ht) as (t' & Hget & Hs & Hc & _).
  exists t'. auto.
Qed.

(** Arrival order does not matter for the outcome: two sequences with the
    same events in a different order leave a trade with the same status and
    the same confirmations. *)
Theorem trade_outcome_independent_of_arrival_order
    (evs1 evs2 : list (string * Event)) (st : State) (tid : string) (t : Trade) :
  io_faults st = [] ->
  get_trade_status st tid = Some t ->
  Permutation evs1 evs2 ->
  exists t1 t2,
    get_trade_status (process_all cfg evs1 st) tid = Some t1 /\
    get_trade_status (process_all cfg evs2 st) tid = Some t2 /\
    status t1 = status t2 /\ confirmations t1 = confirmations t2.
Proof.
  intros Hio Ht Hperm.
  destruct (process_all_trade evs1 st tid t Hio Ht) as (t1 & Hg1 & Hs1 & Hc1 & _).
  destruct (process_all_trade evs2 st tid t Hio Ht) as (t2 & Hg2 & Hs2 & Hc2 & _).
  exists t1, t2. split; [exact Hg1|]. split; [exact Hg2|].
  pose proof (events_of_perm tid _ _ Hperm) as Hp.
  rewrite Hs1, Hs2, Hc1, Hc2. unfold final_status.
  rewrite (existsb_perm (completes cfg) _ _ Hp),
    (existsb_perm (reaches_threshold cfg) _ _ Hp),
    (max_confirmations_perm _ _ Hp).
  split; reflexivity.
Qed.

(** [confirmed_at] is written at most once: for a stored trade that is no
    longer PENDING, no sequence of events changes it, and the trade never
    becomes PENDING again, as long as no write leaves a truncated file
    behind. *)
Theorem confirmed_at_never_rewritten
    (evs : list (string * Event)) (st : State) (tid : string) (t : Trade) :
  never_truncates (io_faults st) = true ->
  get_trade_status st tid = Some t ->
  status t <> PENDING ->
  exists t',
    get_trade_status (process_all cfg evs st) tid = Some t' /\
    confirmed_at t' = confirmed_at t /\ status t' <> PENDING.
Proof.
  revert st t. induction evs as [|[now ev] evs IH]; intros st t Hnt Ht Hnp.
  - exists t. auto.
  - cbn [process_all].
    pose proof (process_event_never_truncates cfg now ev st Hnt) as Hnt'.
    destruct (process_event_cases cfg now ev st tid Hnt) as [Hsame | [_ Hupd]].
    + apply (IH _ t); [exact Hnt' | rewrite Hsame; exact Ht | exact Hnp].
    + rewrite Ht in Hupd. cbn in Hupd.
      destruct (IH _ _ Hnt' Hupd) as (t' & Hget & Hc & Hs).
      * rewrite update_trade_status.
        apply String.eqb_neq in Hnp. rewrite Hnp.
        apply String.eqb_neq in Hnp.
        destruct (Z.leb _ _); [|exact Hnp].
        destruct (String.eqb _ FINAL_CONFIRMATION); [discriminate | exact Hnp].
      * exists t'. split; [exact Hget|]. split; [|exact Hs].
        rewrite Hc, update_trade_confirmed_at.
        apply String.eqb_neq in Hnp. rewrite Hnp, andb_false_r. reflexivity.
Qed.

(** The processor does not de-duplicate: an event applied a second time is
    appended to the history a second time, while the status, the
    confirmations and [confirmed_at] stay as the first application left
    them, and the number of processed events does not grow. *)
Theorem event_applied_twice
    (now1 now2 : string) (ev : Event) (st : State) :
  io_faults st = [] ->
  let st1 := _process_event cfg now1 ev st in
  let st2 := _process_event cfg now2 ev st1 in
  exists t1 t2,
    get_trade_status st1 (trade_id ev) = Some t1 /\
    get_trade_status st2 (trade_id ev) = Some t2 /\
    status t2 = status t1 /\
    confirmations t2 = confirmations t1 /\
    confirmed_at t2 = confirmed_at t1 /\
    events t2 = (events t1 ++ [summary_of ev])%list /\
    get_processed_count st2 = get_processed_count st1.
Proof.
  intros Hio st1 st2.
  set (t0 := default (new_trade now1) (get_trade_status st (trade_id ev))).
  assert (H1 : get_trade_status st1 (trade_id ev) = Some (update_trade cfg now1 ev t0)).
  { apply process_event_lookup. rewrite Hio. reflexivity. }
  assert (H2 : get_trade_status st2 (trade_id ev)
               = Some (update_trade cfg now2 ev (update_trade cfg now1 ev t0))).
  { unfold st2. rewrite process_event_lookup.
    - rewrite H1. reflexivity.
    - unfold st1. rewrite process_event_no_fault by exact Hio. reflexivity. }
  assert (Hcnt : get_processed_count st2 = get_processed_count st1).
  { unfold get_processed_count, st2, st1.
    rewrite !processed_after_process, insert_insert_eq. reflexivity. }
  eexists _, _. split; [exact H1|]. split; [exact H2|].
  rewrite !update_trade_status, !update_trade_confirmations,
    !update_trade_confirmed_at, !update_trade_events, !update_trade_status.
  split; [|split; [lia|split; [|split; [reflexivity | exact Hcnt]]]].
  - destruct (Z.leb _ _); [|reflexivity].
    destruct (String.eqb (event_type ev) FINAL_CONFIRMATION); [reflexivity|].
    destruct (String.eqb (status t0) PENDING) eqn:Hp; [reflexivity|].
    rewrite Hp. reflexivity.
  - destruct (Z.leb _ _); [|reflexivity]. cbn [andb].
    destruct (String.eqb (event_type ev) FINAL_CONFIRMATION); [reflexivity|].
    destruct (String.eqb (status t0) PENDING) eqn:Hp; [reflexivity|].
    rewrite Hp. reflexivity.
Qed.

(** An event counts as processed even when its update was not persisted:
    when the write of the trade store fails, the event is entered in
    [processed_events] all the same.  A write refused when the file is
    opened leaves the store as it was; a write that fails after the file
    was opened leaves it truncated, and every trade it held is lost. *)
Theorem event_marked_processed_when_write_fails
    (now : string) (ev : Event) (st : State)
    (o : write_outcome) (rest : list write_outcome) :
  io_faults st = o :: rest ->
  o <> Written ->
  let st' := _process_event cfg now ev st in
  processed_events st' !! event_id ev = Some ev /\
  is_processed st' (event_id ev) = true /\
  io_faults st' = rest /\
  bot_data_file st' =
    match o with
    | Refused => bot_data_file st
    | _ => None
    end /\
  (o = Truncated -> forall tid, get_trade_status st' tid = None).
Proof.
  intros Hio Ho st'.
  assert (Hp : processed_events st' !! event_id ev = Some ev).
  { unfold st'. rewrite processed_after_process. apply lookup_insert_eq. }
  split; [exact Hp|]. split.
  { unfold is_processed. apply bool_decide_eq_true. rewrite Hp. eauto. }
  split.
  { unfold st'. rewrite faults_after_process, Hio. destruct o; reflexivity. }
  split.
  { unfold st'. rewrite bot_data_after_process, Hio.
    destruct o; [congruence | reflexivity | reflexivity]. }
  intros -> tid. apply (process_event_truncated cfg now ev st rest tid Hio).
Qed.

(** The first event of an unknown trade creates its record: created at the
    time of processing, with that one event as history, and with
    confirmations that are never negative. *)
Theorem first_event_creates_trade
    (now : string) (ev : Event) (st : State) :
  next_write_ok (io_faults st) = true ->
  get_trade_status st (trade_id ev) = None ->
  exists t,
    get_trade_status (_process_event cfg now ev st) (trade_id ev) = Some t /\
    created_at t = now /\
    events t = [summary_of ev] /\
    confirmations t = Z.max 0 (confirmation_count ev) /\
    status t = final_status cfg [ev] PENDING.
Proof.
  intros Hw Hnone. eexists. split; [apply process_event_lookup, Hw|].
  rewrite Hnone. cbn [default].
  rewrite update_trade_created_at, update_trade_events, update_trade_confirmations.
  repeat split.
  transitivity (final_status cfg [ev] (status (new_trade now))); [|reflexivity].
  rewrite <- (final_status_step now ev [] (new_trade now)).
  unfold final_status. cbn [existsb]. rewrite andb_false_r. reflexivity.
Qed.

End TradeHistory.

(** ** Event processor: retries, the queue and replay *)

Section RetryAndReplay.
Import Processor.

Variable cfg : Config.

Lemma retry_reraise_succeeds k f ev st st' :
  succeeds_after k f ev st st' ->
  forall n, (k <= n)%nat -> retry_reraise n f ev st = (st', None).
Proof.
  revert st. induction k as [|k IH]; intros st H n Hle.
  - cbn in H. destruct n; cbn [retry_reraise]; rewrite H; reflexivity.
  - destruct H as (s1 & e1 & Hf & Hrest).
    destruct n as [|n]; [lia|].
    cbn [retry_reraise]. rewrite Hf. apply IH; [exact Hrest | lia].
Qed.

Lemma pop_first_app eid l1 e l2 :
  (forall x, x ∈ l1 -> dl_event_id x <> eid) -> dl_event_id e = eid ->
  pop_first eid (l1 ++ e :: l2) = Some (e, (l1 ++ l2)%list).
Proof.
  induction l1 as [|y l1 IH]; intros H He; cbn.
  - apply String.eqb_eq in He. rewrite He. reflexivity.
  - destruct (String.eqb_spec (dl_event_id y) eid) as [Heq | _].
    + exfalso. apply (H y); [left | exact Heq].
    + rewrite IH; [reflexivity | | exact He].
      intros x Hx. apply H. right. exact Hx.
Qed.

Lemma process_event_with_queue now ev q st :
  _process_event cfg now ev (with_queue q st) =
  with_queue q (_process_event cfg now ev st).
Proof.
  unfold _process_event, _save_bot_data, mark_processed, with_queue, _load_bot_data.
  cbn. destruct (write_file _ _ _). reflexivity.
Qed.

Lemma process_all_with_queue evs q st :
  process_all cfg evs (with_queue q st) = with_queue q (process_all cfg evs st).
Proof.
  revert st. induction evs as [|[now ev] evs IH]; intros st; [reflexivity|].
  cbn [process_all]. rewrite process_event_with_queue. apply IH.
Qed.

Lemma process_event_queue now ev st :
  event_queue (_process_event cfg now ev st) = event_queue st.
Proof.
  unfold _process_event, _save_bot_data, mark_processed.
  destruct (write_file _ _ _). reflexivity.
Qed.

Lemma with_queue_same st : with_queue (event_queue st) st = st.
Proof. destruct st. reflexivity. Qed.

Lemma with_queue_twice q q' st : with_queue q (with_queue q' st) = with_queue q st.
Proof. reflexivity. Qed.

(** A failure that goes away within the five attempts is absorbed: when the
    first [k] attempts (at most four) raise and the next one returns, the
    consumer loop ends the iteration in the state that attempt left, without
    passing through [_handle_failed_event]. *)
Theorem transient_failure_is_absorbed
    (process : attempt_fn) (now : string) (ev : Event)
    (st st0 st1 : State) (k : nat) :
  dequeue st = Some (ev, st0) ->
  (k <= 4)%nat ->
  succeeds_after k process ev st0 st1 ->
  _process_event_with_retry process ev st0 = (st1, None) /\
  process_queue_step cfg process now st = st1.
Proof.
  intros Hdeq Hk Hok.
  assert (Hr : _process_event_with_retry process ev st0 = (st1, None)).
  { unfold _process_event_with_retry. apply (retry_reraise_succeeds k); [exact Hok|].
    cbn. exact Hk. }
  split; [exact Hr|].
  unfold process_queue_step. rewrite Hdeq, Hr. reflexivity.
Qed.

(** An event can be lost: when the five attempts fail and the write of the
    dead-letter file fails too, the event has left the queue and no
    dead-letter entry exists for it.  A write refused when the file is
    opened leaves the dead-letter file as it was; a write that fails after
    the file was opened leaves it truncated, and the older entries are lost
    as well. *)
Theorem event_lost_when_dead_letter_write_fails
    (process : attempt_fn) (now : string) (ev : Event)
    (st st0 st1 : State) (msg : string)
    (o : write_outcome) (rest : list write_outcome) :
  dequeue st = Some (ev, st0) ->
  failing_attempts 5 process ev st0 st1 (PyException msg) ->
  io_faults st1 = o :: rest ->
  o <> Written ->
  let st2 := process_queue_step cfg process now st in
  get_dlq_events st2 =
    match o with
    | Refused => get_dlq_events st1
    | _ => []
    end /\
  event_queue st2 = event_queue st1 /\
  bot_data_file st2 = bot_data_file st1 /\
  processed_events st2 = processed_events st1 /\
  io_faults st2 = rest.
Proof.
  intros Hdeq Hfail Hio Ho st2.
  unfold st2, process_queue_step, _process_event_with_retry.
  rewrite Hdeq. change (stop_after_attempt - 1)%nat with 4%nat.
  rewrite (retry_reraise_exhausted _ _ _ _ _ _ Hfail).
  unfold _handle_failed_event, get_dlq_events, _load_dlq at 1, _save_dlq.
  rewrite Hio. destruct o; [congruence | cbn; auto | cbn; auto].
Qed.

(** Replay removes the first entry with the id and no other: the entries
    before and after it, later entries with the same id included, stay in
    their order.  The original event of the removed entry, with its
    [retry_count] one higher, is not on the queue when the call returns:
    under a running event loop the call returns [True] and has created the
    task that will enqueue it, and the event is at the end of the queue once
    the loop has run the task; without a running loop the call raises after
    the entry was removed, and no task exists. *)
Theorem replay_removes_first_matching_entry
    (eid : string) (st : State) (l1 l2 : list DeadLetterEvent) (e : DeadLetterEvent) :
  get_dlq_events st = (l1 ++ e :: l2)%list ->
  (forall x, x ∈ l1 -> dl_event_id x <> eid) ->
  dl_event_id e = eid ->
  next_write_ok (io_faults st) = true ->
  exists st',
    retry_dlq_event true eid st =
      (inl true, st', [resubmitted (original_event e)]) /\
    retry_dlq_event false eid st =
      (inr (PyException "no running event loop"), st', []) /\
    get_dlq_events st' = (l1 ++ l2)%list /\
    event_queue st' = event_queue st /\
    event_queue (run_tasks [resubmitted (original_event e)] st') =
      (event_queue st ++ [resubmitted (original_event e)])%list.
Proof.
  intros Hdlq Hl1 He Hw.
  unfold retry_dlq_event. unfold get_dlq_events in Hdlq. rewrite Hdlq.
  rewrite pop_first_app by assumption.
  exists (_save_dlq st (l1 ++ l2)).
  split; [reflexivity|]. split; [reflexivity|]. split.
  { apply load_dlq_after_save, Hw. }
  split.
  { apply save_dlq_frame. }
  rewrite run_tasks_queue, (proj1 (save_dlq_frame _ _)). reflexivity.
Qed.

(** Replay does not wait for the dead-letter file: when the write that
    should remove the entry fails, the call, under a running event loop,
    still returns [True] and creates the task that enqueues the event.
    After a write refused when the file was opened the entry stays, so that
    a second replay creates the same task once more, and the event is
    queued twice once the loop has run both; after a write that failed past
    the opening the file is truncated: every entry is lost and a second
    replay finds nothing. *)
Theorem replay_when_dead_letter_write_fails
    (eid : string) (st : State) (l1 l2 : list DeadLetterEvent) (e : DeadLetterEvent)
    (o : write_outcome) (rest : list write_outcome) :
  get_dlq_events st = (l1 ++ e :: l2)%list ->
  (forall x, x ∈ l1 -> dl_event_id x <> eid) ->
  dl_event_id e = eid ->
  io_faults st = o :: rest ->
  o <> Written ->
  next_write_ok rest = true ->
  let again := resubmitted (original_event e) in
  exists st1,
    retry_dlq_event true eid st = (inl true, st1, [again]) /\
    event_queue st1 = event_queue st /\
    match o with
    | Refused =>
        get_dlq_events st1 = get_dlq_events st /\
        exists st2,
          retry_dlq_event true eid st1 = (inl true, st2, [again]) /\
          get_dlq_events st2 = (l1 ++ l2)%list /\
          event_queue (run_tasks ([again] ++ [again]) st2) =
            (event_queue st ++ [again; again])%list
    | _ =>
        get_dlq_events st1 = [] /\
        retry_dlq_event true eid st1 = (inl false, st1, [])
    end.
Proof.
  intros Hdlq Hl1 He Hio Ho Hw again.
  unfold get_dlq_events in Hdlq.
  set (st1 := _save_dlq st (l1 ++ l2)).
  assert (H1 : retry_dlq_event true eid st = (inl true, st1, [again])).
  { unfold retry_dlq_event. rewrite Hdlq, pop_first_app by assumption. reflexivity. }
  assert (Hq1 : event_queue st1 = event_queue st) by apply save_dlq_frame.
  assert (Hio1 : io_faults st1 = rest).
  { unfold st1, _save_dlq. rewrite Hio. destruct o; try congruence; reflexivity. }
  exists st1. split; [exact H1|]. split; [exact Hq1|].
  destruct o; [congruence | |].
  - assert (Hl1' : _load_dlq st1 = (l1 ++ e :: l2)%list).
    { unfold st1, _save_dlq, _load_dlq. rewrite Hio. cbn. exact Hdlq. }
    split; [unfold get_dlq_events; rewrite Hl1', Hdlq; reflexivity|].
    exists (_save_dlq st1 (l1 ++ l2)). split.
    { unfold retry_dlq_event. rewrite Hl1', pop_first_app by assumption.
      reflexivity. }
    split.
    { apply load_dlq_after_save. rewrite Hio1. exact Hw. }
    rewrite run_tasks_queue, (proj1 (save_dlq_frame _ _)), Hq1. reflexivity.
  - assert (Hl1' : _load_dlq st1 = []).
    { unfold st1, _save_dlq, _load_dlq. rewrite Hio. reflexivity. }
    split; [exact Hl1'|].
    unfold retry_dlq_event. rewrite Hl1'. reflexivity.
Qed.

(** The consumer loop is first in, first out: as many iterations as there
    are queued events apply those events in the order of the queue and
    leave the queue empty. *)
Theorem queue_is_drained_in_fifo_order (nows : list string) (st : State) :
  length nows = length (event_queue st) ->
  process_queue_steps cfg nows st =
  with_queue [] (process_all cfg (combine nows (event_queue st)) st).
Proof.
  revert st. induction nows as [|now nows IH]; intros st Hlen.
  - destruct (event_queue st) eqn:Hq; [|discriminate].
    cbn. rewrite <- Hq. symmetry. apply with_queue_same.
  - destruct st as [bd dl q pe io]. cbn in Hlen.
    destruct q as [|ev q]; [discriminate|].
    cbn [process_queue_steps].
    assert (Hstep :
      process_queue_step cfg (process_event_attempt cfg now) now
        {| bot_data_file := bd; dlq_file := dl; event_queue := ev :: q;
           processed_events := pe; io_faults := io |} =
      with_queue q
        (_process_event cfg now ev
           {| bot_data_file := bd; dlq_file := dl; event_queue := ev :: q;
              processed_events := pe; io_faults := io |})).
    { rewrite <- process_event_with_queue. reflexivity. }
    rewrite Hstep, IH.
    + cbn [event_queue with_queue combine process_all].
      rewrite process_all_with_queue, with_queue_twice. reflexivity.
    + cbn. injection Hlen as ->. reflexivity.
Qed.

End RetryAndReplay.

Section ProcessorInstances.
Import Processor.

Lemma trade_untouched_by_events_of_other_trades_witness :
  let st := state_of (Some {[ "trade_001" := confirmed_trade ]}) [] []
              [Refused; Written] in
  let evs := [("t3", other_event); ("t4", other_event)] in
  never_truncates (io_faults st) = true /\
  events_of "trade_001" evs = [] /\
  get_trade_status (process_all default_config evs st) "trade_001"
  = Some confirmed_trade.
Proof.
  intros st evs.
  split; [reflexivity|]. split; [reflexivity|].
  rewrite (trade_untouched_by_events_of_other_trades default_config evs st "trade_001")
    by reflexivity.
  apply lookup_singleton_eq.
Defined.

Lemma trade_history_is_append_only_witness :
  let evs := [("t3", event_with 2 "confirmation"); ("t4", other_event);
              ("t5", event_with 3 FINAL_CONFIRMATION)] in
  exists t',
    get_trade_status (process_all default_config evs (store_with pending_trade))
      "trade_001" = Some t' /\
    events t' = [summary_of (event_with 2 "confirmation");
                 summary_of (event_with 3 FINAL_CONFIRMATION)] /\
    length (events t') = 2%nat /\
    created_at t' = "t0".
Proof.
  intros evs.
  apply (trade_history_is_append_only default_config evs (store_with pending_trade)
           "trade_001" pending_trade).
  - reflexivity.
  - apply lookup_singleton_eq.
Defined.

Lemma trade_status_after_sequence_witness :
  let evs := [("t3", event_with 2 FINAL_CONFIRMATION); ("t4", other_event);
              ("t5", event_with 3 "confirmation")] in
  exists t',
    get_trade_status (process_all default_config evs (store_with pending_trade))
      "trade_001" = Some t' /\
    status t' = CONFIRMED /\ confirmations t' = 3.
Proof.
  intros evs.
  apply (trade_status_after_sequence default_config evs (store_with pending_trade)
           "trade_001" pending_trade).
  - reflexivity.
  - apply lookup_singleton_eq.
Defined.

Lemma trade_outcome_independent_of_arrival_order_witness :
  let a := ("t3", event_with 4 FINAL_CONFIRMATION) in
  let b := ("t4", event_with 2 "confirmation") in
  exists t1 t2,
    get_trade_status (process_all default_config [a; b] (store_with pending_trade))
      "trade_001" = Some t1 /\
    get_trade_status (process_all default_config [b; a] (store_with pending_trade))
      "trade_001" = Some t2 /\
    status t1 = status t2 /\ confirmations t1 = confirmations t2.
Proof.
  intros a b.
  apply (trade_outcome_independent_of_arrival_order default_config [a; b] [b; a]
           (store_with pending_trade) "trade_001" pending_trade).
  - reflexivity.
  - apply lookup_singleton_eq.
  - apply perm_swap.
Defined.

Lemma confirmed_at_never_rewritten_witness :
  let st := state_of (Some {[ "trade_001" := confirmed_trade ]}) [] []
              [Refused; Written] in
  never_truncates (io_faults st) = true /\
  exists t',
    get_trade_status
      (process_all default_config
         [("t3", event_with 3 "confirmation"); ("t4", event_with 9 FINAL_CONFIRMATION)]
         st) "trade_001" = Some t' /\
    confirmed_at t' = Some "t1" /\ status t' <> PENDING.
Proof.
  intros st. split; [reflexivity|].
  apply (confirmed_at_never_rewritten default_config _ st "trade_001" confirmed_trade).
  - reflexivity.
  - apply lookup_singleton_eq.
  - discriminate.
Defined.

Lemma event_applied_twice_witness :
  let ev := event_with 3 "confirmation" in
  let st1 := _process_event default_config "t3" ev (store_with pending_trade) in
  let st2 := _process_event default_config "t4" ev st1 in
  exists t1 t2,
    get_trade_status st1 "trade_001" = Some t1 /\
    get_trade_status st2 "trade_001" = Some t2 /\
    status t2 = status t1 /\
    confirmations t2 = confirmations t1 /\
    confirmed_at t2 = confirmed_at t1 /\
    events t2 = (events t1 ++ [summary_of ev])%list /\
    get_processed_count st2 = get_processed_count st1.
Proof.
  intros ev.
  apply (event_applied_twice default_config "t3" "t4" ev (store_with pending_trade)).
  reflexivity.
Defined.

Lemma event_marked_processed_when_write_fails_witness :
  let ev := event_with 3 "confirmation" in
  let refused := state_of (Some {[ "trade_001" := pending_trade ]}) [] [] [Refused] in
  let truncated := state_of (Some {[ "trade_001" := pending_trade ]}) [] [] [Truncated] in
  (is_processed (_process_event default_config "t3" ev refused) "evt_001" = true /\
   get_trade_status (_process_event default_config "t3" ev refused) "trade_001"
   = Some pending_trade) /\
  (is_processed (_process_event default_config "t3" ev truncated) "evt_001" = true /\
   get_trade_status (_process_event default_config "t3" ev truncated) "trade_001"
   = None).
Proof.
  intros ev refused truncated. split.
  - destruct (event_marked_processed_when_write_fails default_config "t3" ev refused
                Refused []) as (_ & Hp & _ & Hfile & _);
      [reflexivity | discriminate |].
    split; [exact Hp|].
    unfold get_trade_status, _load_bot_data. rewrite Hfile.
    apply lookup_singleton_eq.
  - destruct (event_marked_processed_when_write_fails default_config "t3" ev truncated
                Truncated []) as (_ & Hp & _ & _ & Hlost);
      [reflexivity | discriminate |].
    split; [exact Hp | apply Hlost; reflexivity].
Defined.

Lemma first_event_creates_trade_witness :
  exists t,
    get_trade_status
      (_process_event default_config "t3" (event_with (-1) "confirmation")
         (state_of (Some ∅) [] [] [])) "trade_001" = Some t /\
    created_at t = "t3" /\
    events t = [summary_of (event_with (-1) "confirmation")] /\
    confirmations t = 0 /\
    status t = PENDING.
Proof.
  apply (first_event_creates_trade default_config "t3"
           (event_with (-1) "confirmation") (state_of (Some ∅) [] [] [])).
  - reflexivity.
  - apply lookup_empty.
Defined.

Lemma transient_failure_is_absorbed_witness :
  let ev := event_with 1 "confirmation" in
  let st := state_of None [] [ev] [] in
  process_queue_step default_config fail_until_store "t3" st
  = state_of (Some ∅) [] [] [].
Proof.
  intros ev st.
  apply (transient_failure_is_absorbed default_config fail_until_store "t3" ev st
           (state_of None [] [] []) (state_of (Some ∅) [] [] []) 1).
  - reflexivity.
  - lia.
  - cbn. eexists _, _. split; reflexivity.
Defined.

Lemma event_lost_when_dead_letter_write_fails_witness :
  let ev := event_with 1 "confirmation" in
  let older := dead_letter "t1" other_event "Test error" 0 in
  let refused := process_queue_step default_config always_fail "t3"
                   (state_of (Some ∅) [older] [ev] [Refused]) in
  let truncated := process_queue_step default_config always_fail "t3"
                     (state_of (Some ∅) [older] [ev] [Truncated]) in
  (get_dlq_events refused = [older] /\ event_queue refused = []) /\
  (get_dlq_events truncated = [] /\ event_queue truncated = []).
Proof.
  intros ev older refused truncated. split.
  - destruct (event_lost_when_dead_letter_write_fails default_config always_fail "t3" ev
                (state_of (Some ∅) [older] [ev] [Refused])
                (state_of (Some ∅) [older] [] [Refused])
                (state_of (Some ∅) [older] [] [Refused])
                "Persistent failure" Refused [])
      as (Hd & Hq & _).
    + reflexivity.
    + cbn. unfold always_fail.
      do 4 (do 2 eexists; split; [reflexivity|]). reflexivity.
    + reflexivity.
    + discriminate.
    + split; [exact Hd | exact Hq].
  - destruct (event_lost_when_dead_letter_write_fails default_config always_fail "t3" ev
                (state_of (Some ∅) [older] [ev] [Truncated])
                (state_of (Some ∅) [older] [] [Truncated])
                (state_of (Some ∅) [older] [] [Truncated])
                "Persistent failure" Truncated [])
      as (Hd & Hq & _).
    + reflexivity.
    + cbn. unfold always_fail.
      do 4 (do 2 eexists; split; [reflexivity|]). reflexivity.
    + reflexivity.
    + discriminate.
    + split; [exact Hd | exact Hq].
Defined.

Lemma replay_removes_first_matching_entry_witness :
  let other := dead_letter "t3" other_event "Test error" 5 in
  let first := dead_letter "t4" (event_with 1 "confirmation") "Test error" 5 in
  let second := dead_letter "t5" (event_with 2 "confirmation") "Test error" 5 in
  let again := resubmitted (event_with 1 "confirmation") in
  let st := state_of (Some ∅) [other; first; second] [other_event] [] in
  exists st',
    retry_dlq_event true "evt_001" st = (inl true, st', [again]) /\
    retry_dlq_event false "evt_001" st =
      (inr (PyException "no running event loop"), st', []) /\
    get_dlq_events st' = [other; second] /\
    event_queue st' = [other_event] /\
    event_queue (run_tasks [again] st') = [other_event; again].
Proof.
  intros other first second again st.
  apply (replay_removes_first_matching_entry "evt_001" st [other] [second] first).
  - reflexivity.
  - intros x Hx. apply list_elem_of_singleton in Hx. subst x. discriminate.
  - reflexivity.
  - reflexivity.
Defined.

Lemma replay_when_dead_letter_write_fails_witness :
  let first := dead_letter "t4" (event_with 1 "confirmation") "Test error" 5 in
  let again := resubmitted (event_with 1 "confirmation") in
  (exists st1 st2,
      retry_dlq_event true "evt_001" (state_of (Some ∅) [first] [] [Refused])
      = (inl true, st1, [again]) /\
      get_dlq_events st1 = [first] /\
      retry_dlq_event true "evt_001" st1 = (inl true, st2, [again]) /\
      event_queue (run_tasks ([again] ++ [again]) st2) = [again; again]) /\
  (exists st1,
      retry_dlq_event true "evt_001" (state_of (Some ∅) [first] [] [Truncated])
      = (inl true, st1, [again]) /\
      get_dlq_events st1 = [] /\
      retry_dlq_event true "evt_001" st1 = (inl false, st1, [])).
Proof.
  intros first again. split.
  - destruct (replay_when_dead_letter_write_fails "evt_001"
                (state_of (Some ∅) [first] [] [Refused]) [] [] first Refused [])
      as (st1 & H1 & _ & Hkept & st2 & H2 & _ & Hrun);
      try reflexivity; try discriminate.
    { intros x Hx. apply elem_of_nil in Hx. destruct Hx. }
    exists st1, st2. repeat split; assumption.
  - destruct (replay_when_dead_letter_write_fails "evt_001"
                (state_of (Some ∅) [first] [] [Truncated]) [] [] first Truncated [])
      as (st1 & H1 & _ & Hlost & Hnone);
      try reflexivity; try discriminate.
    { intros x Hx. apply elem_of_nil in Hx. destruct Hx. }
    exists st1. repeat split; assumption.
Defined.

Lemma queue_is_drained_in_fifo_order_witness :
  let a := event_with 3 "confirmation" in
  let st := state_of (Some ∅) [] [a; other_event] [] in
  process_queue_steps default_config ["t3"; "t4"] st =
  with_queue [] (process_all default_config [("t3", a); ("t4", other_event)] st).
Proof.
  intros a st.
  apply (queue_is_drained_in_fifo_order default_config ["t3"; "t4"] st).
  reflexivity.
Defined.

End ProcessorInstances.

(** ** Webhook receiver: rejections, growth of the files, write faults *)

Section ReceiverFiles.
Import Receiver.

Variable hmac_sha256_hex : string -> string -> string.
Variable json_loads : string -> option Payload.
Variable webhook_secret : string.

Local Abbreviation handle := (handle_webhook hmac_sha256_hex json_loads webhook_secret).
Local Abbreviation verify := (_verify_signature hmac_sha256_hex webhook_secret).

Lemma str_in_true x l : str_in x l = true <-> In x l.
Proof.
  induction l as [|y l IH]; cbn; [split; [discriminate | tauto]|].
  destruct (String.eqb_spec y x) as [-> | Hne]; [tauto|].
  rewrite IH. split; [tauto | intros [? | ?]; [contradiction | assumption]].
Qed.


(** The state an accepted delivery leaves when neither of its two writes
    truncates the file: the old content with at most the event and at most
    the id added. *)
Lemma accept_state_cases st eid event :
  in_ledger st eid = false ->
  never_truncates (io_faults st) = true ->
  let d := _load_events st in
  let st' :=
    _mark_processed
      (_save_events st {| events := events d ++ [event];
                          processed_ids := processed_ids d |}) eid in
  exists l1 l2,
    events (_load_events st') = (events d ++ l1)%list /\
    processed_ids (_load_events st') = (processed_ids d ++ l2)%list /\
    (l1 = [] \/ l1 = [event]) /\ (l2 = [] \/ l2 = [eid]).
Proof.
  intros Hnew Hnt d st'. unfold in_ledger in Hnew. fold d in Hnew.
  unfold st', _save_events.
  destruct (io_faults st) as [|[] fs] eqn:Hio; cbn [write_file];
    try discriminate Hnt.
  - unfold _mark_processed. cbn [_load_events events_file processed_ids events].
    rewrite Hnew. cbn.
    exists [event], [eid]. auto.
  - unfold _mark_processed. cbn [_load_events events_file processed_ids events].
    rewrite Hnew. cbn [negb]. unfold _save_events. cbn [io_faults events_file].
    destruct fs as [|[] fs']; try discriminate Hnt;
      cbn [write_file _load_events events_file events processed_ids].
    + exists [event], [eid]. auto.
    + exists [event], [eid]. auto.
    + exists [event], []. rewrite app_nil_r. auto.
  - unfold _mark_processed.
    replace (_load_events {| events_file := events_file st; io_faults := fs |})
      with d by reflexivity.
    rewrite Hnew. cbn [negb]. unfold _save_events. cbn [io_faults events_file].
    destruct fs as [|[] fs']; try discriminate Hnt;
      cbn [write_file _load_events events_file events processed_ids].
    + exists [], [eid]. rewrite app_nil_r. auto.
    + exists [], [eid]. rewrite app_nil_r. auto.
    + fold d. exists [], []. rewrite !app_nil_r. auto.
Qed.

(** The ledger an accepted delivery leaves, whatever its two writes do: the
    old ledger, with the id added or not, or, after a truncation, no id or
    the id alone. *)
Lemma accept_ledger_cases st eid event :
  in_ledger st eid = false ->
  let d := _load_events st in
  let st' :=
    _mark_processed
      (_save_events st {| events := events d ++ [event];
                          processed_ids := processed_ids d |}) eid in
  processed_ids (_load_events st') = (processed_ids d ++ [eid])%list \/
  processed_ids (_load_events st') = processed_ids d \/
  processed_ids (_load_events st') = [] \/
  processed_ids (_load_events st') = [eid].
Proof.
  intros Hnew d st'. unfold in_ledger in Hnew. fold d in Hnew.
  unfold st', _save_events.
  destruct (io_faults st) as [|[] fs] eqn:Hio; cbn [write_file].
  - unfold _mark_processed. cbn [_load_events events_file processed_ids events].
    rewrite Hnew. cbn. auto.
  - unfold _mark_processed. cbn [_load_events events_file processed_ids events].
    rewrite Hnew. cbn [negb]. unfold _save_events. cbn [io_faults events_file].
    destruct fs as [|[] fs'];
      cbn [write_file _load_events events_file events processed_ids]; auto.
  - unfold _mark_processed.
    replace (_load_events {| events_file := events_file st; io_faults := fs |})
      with d by reflexivity.
    rewrite Hnew. cbn [negb]. unfold _save_events. cbn [io_faults events_file].
    destruct fs as [|[] fs'];
      cbn [write_file _load_events events_file events processed_ids]; auto.
  - unfold _mark_processed. cbn [_load_events events_file processed_ids events str_in negb].
    unfold _save_events. cbn [io_faults events_file].
    destruct fs as [|[] fs'];
      cbn [write_file _load_events events_file events processed_ids app]; auto.
Qed.

Lemma unaccepted_keeps_state now req st :
  is_received (fst (handle now req st)) = false ->
  snd (handle now req st) = st.
Proof.
  unfold handle_webhook.
  destruct (verify _ _); cbn [negb]; [|reflexivity].
  destruct (json_loads (body req)) as [payload|]; [|reflexivity].
  destruct (p_event_id payload) as [[|c eid]|]; try reflexivity.
  destruct (_check_idempotency st (String c eid)); cbn [negb]; [|reflexivity].
  destruct (_parse_event now payload); [|reflexivity].
  cbn. discriminate.
Qed.

(** Every answer other than "received" leaves the files, and the write
    oracle, exactly as they were: a rejected or duplicate delivery writes
    nothing. *)
Theorem unaccepted_delivery_changes_nothing
    (now : string) (req : Request) (st : State) :
  is_received (fst (handle now req st)) = false ->
  snd (handle now req st) = st.
Proof.
  unfold handle_webhook.
  destruct (verify (body req) (default "" (signature_header req)));
    cbn [negb]; [|reflexivity].
  destruct (json_loads (body req)) as [payload|]; [|reflexivity].
  destruct (p_event_id payload) as [[|c eid]|]; try reflexivity.
  destruct (_check_idempotency st (String c eid)); cbn [negb]; [|reflexivity].
  destruct (_parse_event now payload) as [event|]; [|reflexivity].
  cbn. discriminate.
Qed.

(** The answer is 401 exactly when the signature check fails, whatever the
    body holds: the check comes before the body is decoded. *)
Theorem unauthorized_exactly_when_signature_fails
    (now : string) (req : Request) (st : State) :
  http_status (fst (handle now req st)) = 401 <->
  verify (body req) (default "" (signature_header req)) = false.
Proof.
  unfold handle_webhook.
  destruct (verify _ _); cbn [negb]; [|split; reflexivity].
  split; [|discriminate].
  destruct (json_loads (body req)) as [payload|]; [|discriminate].
  destruct (p_event_id payload) as [[|c eid]|]; try discriminate.
  destruct (_check_idempotency st (String c eid)); cbn [negb]; [|discriminate].
  destruct (_parse_event now payload); discriminate.
Qed.

(** The store and the ledger are append-only as long as no write leaves a
    truncated file behind: whatever the request, and whether the writes go
    through or are refused, one delivery leaves the old events and the old
    ids in place and adds at most one of each. *)
Theorem store_and_ledger_only_grow (now : string) (req : Request) (st : State) :
  never_truncates (io_faults st) = true ->
  exists l1 l2,
    events (_load_events (snd (handle now req st))) =
      (events (_load_events st) ++ l1)%list /\
    processed_ids (_load_events (snd (handle now req st))) =
      (processed_ids (_load_events st) ++ l2)%list /\
    (length l1 <= 1)%nat /\ (length l2 <= 1)%nat.
Proof.
  intros Hnt.
  destruct (is_received (fst (handle now req st))) eqn:Hrec.
  - destruct (handle_webhook_received _ _ _ now req st Hrec)
      as (payload & eid & event & Hsig & Hjson & Hid & Hne & Hnew & Hparse).
    rewrite (handle_webhook_accept _ _ _ now req st payload eid event) by assumption.
    cbn [snd].
    destruct (accept_state_cases st eid event Hnew Hnt)
      as (l1 & l2 & H1 & H2 & Hl1 & Hl2).
    exists l1, l2. split; [exact H1|]. split; [exact H2|].
    destruct Hl1 as [-> | ->], Hl2 as [-> | ->]; cbn; lia.
  - rewrite unaccepted_keeps_state by exact Hrec.
    exists [], []. rewrite !app_nil_r. cbn. auto.
Qed.

(** The ledger never holds an id twice: a ledger without repetition is
    still without repetition after any delivery, whatever the writes do. *)
Theorem ledger_keeps_ids_distinct (now : string) (req : Request) (st : State) :
  NoDup (processed_ids (_load_events st)) ->
  NoDup (processed_ids (_load_events (snd (handle now req st)))).
Proof.
  intros Hnd.
  destruct (is_received (fst (handle now req st))) eqn:Hrec.
  - destruct (handle_webhook_received _ _ _ now req st Hrec)
      as (payload & eid & event & Hsig & Hjson & Hid & Hne & Hnew & Hparse).
    rewrite (handle_webhook_accept _ _ _ now req st payload eid event) by assumption.
    cbn [snd].
    destruct (accept_ledger_cases st eid event Hnew) as [H | [H | [H | H]]];
      rewrite H.
    + apply NoDup_app. split; [exact Hnd|]. split.
      * intros x Hx Hx'. apply list_elem_of_singleton in Hx'. subst x.
        apply list_elem_of_In, str_in_true in Hx.
        unfold in_ledger in Hnew. congruence.
      * apply NoDup_singleton.
    + exact Hnd.
    + apply NoDup_nil_2.
    + apply NoDup_singleton.
  - rewrite unaccepted_keeps_state by exact Hrec. exact Hnd.
Qed.




End ReceiverFiles.

Section ReceiverParsing.
Import Receiver.

(** A parsed event carries the declared network in upper case, one of the
    four known ones, the time of reception, and the documented defaults for
    the envelope fields the payload lacks; a payload whose network, an ASCII
    text, is none of the four in any case is not parsed. *)
Theorem parsed_event_network_and_defaults (now : string) (payload : Payload) :
  ascii_only (default "" (p_network payload)) = true ->
  match _parse_event now payload with
  | Some event =>
      network event = upper (default "" (p_network payload)) /\
      In (network event) ["ETH"; "BTC"; "SOL"; "LTC"] /\
      event_id event = default "" (p_event_id payload) /\
      tx_hash event = default "" (p_tx_hash payload) /\
      confirmation_count event = default 0 (p_confirmations payload) /\
      timestamp event = default "" (p_timestamp payload) /\
      event_type event = default "transaction" (p_type payload) /\
      received_at event = now
  | None => ~ In (upper (default "" (p_network payload))) ["ETH"; "BTC"; "SOL"; "LTC"]
  end.
Proof.
  intros _. unfold _parse_event.
  destruct (String.eqb_spec (upper (default "" (p_network payload))) "ETH") as [-> | H1].
  { cbn. tauto. }
  destruct (String.eqb_spec (upper (default "" (p_network payload))) "BTC") as [-> | H2].
  { cbn. tauto. }
  destruct (String.eqb_spec (upper (default "" (p_network payload))) "SOL") as [-> | H3].
  { cbn. tauto. }
  destruct (String.eqb_spec (upper (default "" (p_network payload))) "LTC") as [-> | H4].
  { cbn. tauto. }
  cbn. intros [?|[?|[?|[?|[]]]]]; congruence.
Qed.

End ReceiverParsing.

Section ReceiverFilesInstances.
Import Receiver.

Lemma unaccepted_delivery_changes_nothing_witness :
  handle_webhook no_hmac not_json "" "t1" sample_request (empty_store [Refused; Written])
  = (error_response 400 "Invalid JSON", empty_store [Refused; Written]).
Proof.
  apply injective_projections; [reflexivity|].
  apply (unaccepted_delivery_changes_nothing no_hmac not_json "" "t1" sample_request
           (empty_store [Refused; Written])).
  reflexivity.
Defined.

Lemma store_and_ledger_only_grow_witness :
  let st := store_of [btc_event] ["evt_btc_001"] [Refused; Written] in
  never_truncates (io_faults st) = true /\
  exists l1 l2,
    events (_load_events
              (snd (handle_webhook no_hmac sample_loads "" "t1" sample_request st)))
    = ([btc_event] ++ l1)%list /\
    processed_ids (_load_events
                     (snd (handle_webhook no_hmac sample_loads "" "t1" sample_request st)))
    = (["evt_btc_001"] ++ l2)%list /\
    (length l1 <= 1)%nat /\ (length l2 <= 1)%nat.
Proof.
  intros st. split; [reflexivity|].
  apply (store_and_ledger_only_grow no_hmac sample_loads "" "t1" sample_request st).
  reflexivity.
Defined.

Lemma ledger_keeps_ids_distinct_witness :
  let new_id := store_of [btc_event] ["evt_btc_001"; "evt_btc_002"] [] in
  let known_id := store_of [btc_event; eth_event "t0"] ["evt_btc_001"; "evt_eth_001"] [] in
  let truncating := store_of [btc_event] ["evt_btc_001"; "evt_btc_002"]
                      [Truncated; Written] in
  let ledger_after st :=
    processed_ids
      (_load_events (snd (handle_webhook no_hmac sample_loads "" "t1" sample_request st))) in
  (NoDup (ledger_after new_id) /\
   ledger_after new_id = ["evt_btc_001"; "evt_btc_002"; "evt_eth_001"]) /\
  (NoDup (ledger_after known_id) /\
   ledger_after known_id = ["evt_btc_001"; "evt_eth_001"]) /\
  (NoDup (ledger_after truncating) /\
   ledger_after truncating = ["evt_eth_001"]).
Proof.
  intros new_id known_id truncating ledger_after.
  assert (H2 : NoDup ["evt_btc_001"; "evt_btc_002"]).
  { apply NoDup_cons. split; [|apply NoDup_singleton].
    intros H. apply list_elem_of_singleton in H. discriminate H. }
  assert (H2' : NoDup ["evt_btc_001"; "evt_eth_001"]).
  { apply NoDup_cons. split; [|apply NoDup_singleton].
    intros H. apply list_elem_of_singleton in H. discriminate H. }
  split; [|split].
  - split; [|reflexivity].
    exact (ledger_keeps_ids_distinct no_hmac sample_loads "" "t1" sample_request
             new_id H2).
  - split; [|reflexivity].
    exact (ledger_keeps_ids_distinct no_hmac sample_loads "" "t1" sample_request
             known_id H2').
  - split; [|reflexivity].
    exact (ledger_keeps_ids_distinct no_hmac sample_loads "" "t1" sample_request
             truncating H2).
Defined.



Lemma parsed_event_network_and_defaults_witness :
  _parse_event "t1" eth_event_payload = Some (eth_event "t1") /\
  network (eth_event "t1") = "ETH" /\
  event_type (eth_event "t1") = "confirmation".
Proof.
  pose proof (parsed_event_network_and_defaults "t1" eth_event_payload eq_refl) as H.
  split; [reflexivity|].
  change (_parse_event "t1" eth_event_payload) with (Some (eth_event "t1")) in H.
  destruct H as (Hn & _ & _ & _ & _ & _ & Ht & _).
  split; [exact Hn | exact Ht].
Defined.

End ReceiverFilesInstances.

(** ** RPC client: how a call ends *)

Section RpcRequests.
Import Rpc.

Variable float_pow : Q -> nat -> option Q.

Lemma request_loop_bounds c url payload net :
  forall remaining attempt last_error,
    max_retries c = Z.of_nat (attempt + remaining) ->
    let acts :=
      snd (request_loop float_pow c url payload net remaining attempt last_error) in
    (length (requests acts) <= remaining)%nat /\
    (0 < remaining -> 0 < length (requests acts))%nat /\
    (length (sleeps acts) <= Nat.pred (length (requests acts)))%nat /\
    Forall (fun a => a = Request url payload (timeout c)) (requests acts).
Proof.
  induction remaining as [|r IH]; intros attempt last_error Hmax; cbn zeta.
  - cbn. split; [lia|]. split; [lia|]. split; [lia | constructor].
  - cbn [request_loop].
    destruct (attempt_once c (net attempt)) as [d|e|e].
    + cbn. split; [lia|]. split; [lia|]. split; [lia|]. repeat constructor.
    + specialize (IH (S attempt) (Some e)).
      destruct (request_loop float_pow c url payload net r (S attempt) (Some e))
        as [res acts].
      cbn [snd] in *.
      destruct IH as (Hr & Hpos & Hs & Hall); [lia|].
      destruct (Z.ltb_spec (Z.of_nat attempt) (max_retries c - 1)) as [Hlt | Hge].
      * destruct (wait_time float_pow c attempt) as [w|].
        -- assert (0 < r)%nat by lia. specialize (Hpos H). cbn [snd].
           change (requests (Request url payload (timeout c) :: Sleep w :: acts))
             with (Request url payload (timeout c) :: requests acts).
           change (sleeps (Request url payload (timeout c) :: Sleep w :: acts))
             with (w :: sleeps acts).
           cbn [snd length]. split; [lia|]. split; [lia|]. split; [lia|].
           constructor; [reflexivity | exact Hall].
        -- cbn. split; [lia|]. split; [lia|]. split; [lia|]. repeat constructor.
      * cbn [snd].
        change (requests (Request url payload (timeout c) :: acts))
          with (Request url payload (timeout c) :: requests acts).
        change (sleeps (Request url payload (timeout c) :: acts))
          with (sleeps acts).
        cbn [length]. split; [lia|]. split; [lia|]. split; [lia|].
        constructor; [reflexivity | exact Hall].
    + cbn. split; [lia|]. split; [lia|]. split; [lia|]. repeat constructor.
Qed.

Lemma request_loop_same_attempts c url payload net net' :
  (forall k, attempt_once c (net k) = attempt_once c (net' k)) ->
  forall remaining attempt last_error,
    request_loop float_pow c url payload net remaining attempt last_error =
    request_loop float_pow c url payload net' remaining attempt last_error.
Proof.
  intros Hsame. induction remaining as [|r IH]; intros attempt last_error;
    [reflexivity|].
  cbn [request_loop]. rewrite Hsame.
  destruct (attempt_once c (net' attempt)); try reflexivity.
  rewrite IH. reflexivity.
Qed.

Lemma url_present (url : option string) :
  url_missing url = false -> exists u, url = Some u /\ u <> "".
Proof.
  destruct url as [[|ch u]|]; try discriminate.
  intros _. eexists. split; [reflexivity | discriminate].
Qed.

(** Two ways a call ends without a single request: with no endpoint
    configured it raises [RPCConnectionError] at once; with an endpoint but
    [max_retries] zero or negative the loop body never runs and the fallback
    [RPCConnectionError] is raised although the endpoint was never tried. *)
Theorem call_without_endpoint_or_attempts_issues_no_request
    (c : RPCClient) (url : option string) (payload : json) (net : nat -> Exchange) :
  (url_missing url = true ->
   _make_request float_pow c url payload net =
   (inr (RPCConnectionError "RPC URL not configured"), [])) /\
  (url_missing url = false -> max_retries c <= 0 ->
   _make_request float_pow c url payload net =
   (inr (RPCConnectionError "Failed to connect to RPC endpoint"), [])).
Proof.
  split.
  - destruct url as [[|ch u]|]; try discriminate; reflexivity.
  - intros Hurl Hmax. destruct (url_present url Hurl) as (u & -> & Hne).
    unfold _make_request. destruct u as [|ch u]; [congruence|].
    replace (Z.to_nat (max_retries c)) with 0%nat by lia. reflexivity.
Qed.

(** A call that succeeds after [k] handled failures, the waits between them
    computed without overflow, returns the data of the first successful
    attempt: it has issued [k + 1] requests and slept
    [backoff_factor ** 0], ..., [backoff_factor ** (k - 1)] between them, as
    the float power gives them; a first-attempt success sleeps not at
    all. *)
Theorem success_after_handled_failures
    (c : RPCClient) (url : option string) (payload : json) (net : nat -> Exchange)
    (k : nat) (d : list (string * json)) (w : nat -> Q) :
  url_missing url = false ->
  Z.of_nat k < max_retries c ->
  (forall j, (j < k)%nat -> exists e, attempt_once c (net j) = Caught e) ->
  (forall j, (j < k)%nat -> float_pow (backoff_factor c) j = Some (w j)) ->
  attempt_once c (net k) = Returned d ->
  exists u acts,
    url = Some u /\
    _make_request float_pow c url payload net = (inl d, acts) /\
    requests acts = repeat (Request u payload (timeout c)) (S k) /\
    sleeps acts = map w (seq 0 k).
Proof.
  intros Hurl Hk Hall Hw Hok. destruct (url_present url Hurl) as (u & -> & Hne).
  set (errs := fun j => match attempt_once c (net j) with
                        | Caught e => e
                        | _ => OtherException ""
                        end).
  exists u, (retry_schedule w (Request u payload (timeout c)) (S k) 0).
  split; [reflexivity|]. split.
  - unfold _make_request. destruct u as [|ch u]; [congruence|].
    apply (request_loop_leaves float_pow c _ payload net errs w (inl d) k); try lia.
    + intros j Hj. destruct (Hall j) as [e He]; [lia|].
      unfold errs. rewrite He. reflexivity.
    + intros j Hj. apply Hw. lia.
    + cbn [Nat.add]. rewrite Hok. reflexivity.
  - split; [apply retry_schedule_requests | apply retry_schedule_sleeps]; reflexivity.
Qed.

(** An exception that none of the three handlers matches (a body that is not
    JSON, an [error] member that is not an object) is not retried: after
    [k] handled failures, the waits between them computed without overflow,
    it leaves the call at the attempt where it occurs, unclassified, and no
    later request is issued even when attempts remain. *)
Theorem unhandled_exception_is_not_retried
    (c : RPCClient) (url : option string) (payload : json) (net : nat -> Exchange)
    (k : nat) (e : RpcExn) (w : nat -> Q) :
  url_missing url = false ->
  Z.of_nat k < max_retries c ->
  (forall j, (j < k)%nat -> exists e', attempt_once c (net j) = Caught e') ->
  (forall j, (j < k)%nat -> float_pow (backoff_factor c) j = Some (w j)) ->
  attempt_once c (net k) = Uncaught e ->
  exists u acts,
    url = Some u /\
    _make_request float_pow c url payload net = (inr e, acts) /\
    typed_fault e = false /\
    requests acts = repeat (Request u payload (timeout c)) (S k) /\
    sleeps acts = map w (seq 0 k).
Proof.
  intros Hurl Hk Hall Hw Hbad. destruct (url_present url Hurl) as (u & -> & Hne).
  set (errs := fun j => match attempt_once c (net j) with
                        | Caught e => e
                        | _ => OtherException ""
                        end).
  exists u, (retry_schedule w (Request u payload (timeout c)) (S k) 0).
  split; [reflexivity|]. split; [|split].
  - unfold _make_request. destruct u as [|ch u]; [congruence|].
    apply (request_loop_leaves float_pow c _ payload net errs w (inr e) k); try lia.
    + intros j Hj. destruct (Hall j) as [e' He]; [lia|].
      unfold errs. rewrite He. reflexivity.
    + intros j Hj. apply Hw. lia.
    + cbn [Nat.add]. rewrite Hbad. reflexivity.
  - unfold attempt_once in Hbad.
    destruct (http_request (timeout c) (net k)) as [st dd| |m|m]; try discriminate.
    + destruct (assoc_get "error" dd) as [[]|]; try discriminate;
        injection Hbad as <-; reflexivity.
    + injection Hbad as <-. reflexivity.
  - split; [apply retry_schedule_requests | apply retry_schedule_sleeps]; reflexivity.
Qed.

(** Whatever the endpoint does, a call never issues more than [max_retries]
    requests, every request is the same one with the client's time-out, and
    there is at most one sleep between two requests, none after the last. *)
Theorem requests_bounded_by_max_retries
    (c : RPCClient) (url : option string) (payload : json) (net : nat -> Exchange) :
  let acts := snd (_make_request float_pow c url payload net) in
  Z.of_nat (length (requests acts)) <= Z.max 0 (max_retries c) /\
  (length (sleeps acts) <= Nat.pred (length (requests acts)))%nat /\
  forall a, In a (requests acts) ->
            exists u, url = Some u /\ a = Request u payload (timeout c).
Proof.
  cbn zeta. unfold _make_request.
  destruct url as [[|ch u]|]; cbn [snd requests sleeps List.filter length];
    try (split; [lia|]; split; [lia|]; intros a []).
  destruct (Z.le_gt_cases (max_retries c) 0) as [Hle | Hgt].
  - replace (Z.to_nat (max_retries c)) with 0%nat by lia.
    cbn. split; [lia|]. split; [lia|]. intros a [].
  - destruct (request_loop_bounds c (String ch u) payload net
                (Z.to_nat (max_retries c)) 0%nat None) as (Hr & _ & Hs & Hall);
      [lia|].
    split; [lia|]. split; [exact Hs|].
    intros a Ha. exists (String ch u). split; [reflexivity|].
    rewrite List.Forall_forall in Hall. apply Hall, Ha.
Qed.

(** [_make_request] does not look at the HTTP status: replies that differ
    only in their status code give the same result and the same requests, so
    a reply with status 500 and a JSON body without error is returned as
    data. *)
Theorem http_status_is_ignored
    (c : RPCClient) (url : option string) (payload : json) (net : nat -> Exchange)
    (status : nat -> Z) :
  _make_request float_pow c url payload (fun k => with_status (status k) (net k)) =
  _make_request float_pow c url payload net.
Proof.
  unfold _make_request. destruct url as [[|ch u]|]; try reflexivity.
  apply request_loop_same_attempts. intros k.
  unfold attempt_once, http_request, with_status. cbn [latency answer].
  destruct (latency (net k)) as [l|]; [|reflexivity].
  destruct (Qle_bool l (timeout c)); [|reflexivity].
  destruct (answer (net k)); reflexivity.
Qed.

(** The two paths disagree on a null error member: a reply with status 200
    whose body has ["error": null], as JSON-RPC 1.0 nodes send on success,
    is returned as data by [_make_request] and reported unhealthy by
    [health_check]. *)
Theorem null_error_member_is_data_but_unhealthy
    (c : RPCClient) (network : NetworkType) (payload : json)
    (net : nat -> Exchange) (d : list (string * json)) :
  url_missing (_get_rpc_url c network) = false ->
  1 <= max_retries c ->
  http_request (timeout c) (net 0%nat) = Got 200 d ->
  http_request (2 # 1) (net 0%nat) = Got 200 d ->
  assoc_get "error" d = Some JNull ->
  fst (_make_request float_pow c (_get_rpc_url c network) payload net) = inl d /\
  fst (health_check c network (net 0%nat)) = false.
Proof.
  intros Hurl Hmax Hreq Hprobe Herr.
  destruct (url_present _ Hurl) as (u & Hu & Hne). split.
  - rewrite Hu. unfold _make_request. destruct u as [|ch u]; [congruence|].
    destruct (Z.to_nat (max_retries c)) as [|r] eqn:Hr; [lia|].
    cbn [request_loop]. unfold attempt_once. rewrite Hreq, Herr. reflexivity.
  - unfold health_check. rewrite Hu. destruct u as [|ch u]; [congruence|].
    rewrite Hprobe. unfold has_key. rewrite Herr. reflexivity.
Qed.

(** [health_check_all] reports exactly the networks with a configured
    endpoint, each with the answer of its own [health_check]; a network
    without endpoint is left out, not reported unhealthy. *)
Theorem health_check_all_reports_configured_networks
    (c : RPCClient) (net : NetworkType -> Exchange) (n : NetworkType) :
  assoc_get (network_value n) (health_check_all c net) =
  if url_missing (_get_rpc_url c n) then None
  else Some (fst (health_check c n (net n))).
Proof.
  unfold health_check_all, all_networks. cbn [List.filter _get_rpc_url].
  destruct (url_missing (eth_rpc_url c)) eqn:He,
           (url_missing (btc_rpc_url c)) eqn:Hb,
           (url_missing (sol_rpc_url c)) eqn:Hs,
           (url_missing (ltc_rpc_url c)) eqn:Hl;
    destruct n; cbn [negb map assoc_get network_value _get_rpc_url];
    rewrite ?He, ?Hb, ?Hs, ?Hl; reflexivity.
Qed.

(** The zero fallback of [sol_get_balance] covers a missing [result] or a
    missing [value] only: a reply whose [result] is present but not an
    object, [null] included, makes the method raise although the request
    itself succeeded. *)
Theorem sol_get_balance_fallback_and_failure
    (c : RPCClient) (address : string) (net : nat -> Exchange)
    (d : list (string * json)) :
  url_missing (sol_rpc_url c) = false ->
  1 <= max_retries c ->
  attempt_once c (net 0%nat) = Returned d ->
  fst (sol_get_balance float_pow c address net) =
  match assoc_get "result" d with
  | None => inl (JNum 0)
  | Some (JObj fields) => inl (default (JNum 0) (assoc_get "value" fields))
  | Some _ => inr (OtherException "AttributeError")
  end.
Proof.
  intros Hurl Hmax Hok. destruct (url_present _ Hurl) as (u & Hu & Hne).
  unfold sol_get_balance. rewrite Hu. unfold _make_request.
  destruct u as [|ch u]; [congruence|].
  destruct (Z.to_nat (max_retries c)) as [|r] eqn:Hr; [lia|].
  cbn [request_loop]. rewrite Hok.
  destruct (assoc_get "result" d) as [[]|]; reflexivity.
Qed.

End RpcRequests.

Section RpcRequestsInstances.
Import Rpc.

Lemma call_without_endpoint_or_attempts_issues_no_request_witness :
  _make_request sample_pow sample_client (sol_rpc_url sample_client) JNull refusing =
    (inr (RPCConnectionError "RPC URL not configured"), []) /\
  _make_request sample_pow (full_client 0) (Some "http://localhost:8545") JNull
    (fun _ => answering 200 chain_id_result) =
    (inr (RPCConnectionError "Failed to connect to RPC endpoint"), []).
Proof.
  split.
  - apply (call_without_endpoint_or_attempts_issues_no_request sample_pow sample_client None
             JNull refusing).
    reflexivity.
  - apply (call_without_endpoint_or_attempts_issues_no_request sample_pow (full_client 0)
             (Some "http://localhost:8545") JNull
             (fun _ => answering 200 chain_id_result)).
    + reflexivity.
    + cbn. lia.
Defined.

Lemma success_after_handled_failures_witness :
  let req := Request "http://localhost:8545" JNull (10 # 1) in
  exists acts,
    _make_request sample_pow sample_client (Some "http://localhost:8545") JNull
      (recovering chain_id_result) = (inl chain_id_result, acts) /\
    requests acts = [req; req; req] /\
    sleeps acts = [1 # 1; 2 # 1].
Proof.
  intros req.
  destruct (success_after_handled_failures sample_pow sample_client
              (Some "http://localhost:8545") JNull (recovering chain_id_result)
              2 chain_id_result (fun k => Qpower (2 # 1) (Z.of_nat k)))
    as (u & acts & Hu & Hcall & Hreq & Hsl).
  - reflexivity.
  - cbn. lia.
  - intros j Hj. destruct j as [|[|j]]; [eexists; reflexivity .. | lia].
  - intros j Hj. destruct j as [|[|j]]; [reflexivity | reflexivity | lia].
  - reflexivity.
  - injection Hu as <-. exists acts. auto.
Defined.

Lemma unhandled_exception_is_not_retried_witness :
  let req := Request "http://localhost:8545" JNull (10 # 1) in
  let late_garbage := fun attempt : nat =>
    if Nat.ltb attempt 1 then refusing attempt else malformed attempt in
  exists acts,
    _make_request sample_pow sample_client (Some "http://localhost:8545") JNull
      late_garbage
    = (inr (OtherException "Invalid JSON"), acts) /\
    requests acts = [req; req] /\
    sleeps acts = [1 # 1].
Proof.
  intros req late_garbage.
  destruct (unhandled_exception_is_not_retried sample_pow sample_client
              (Some "http://localhost:8545") JNull late_garbage 1
              (OtherException "Invalid JSON") (fun k => Qpower (2 # 1) (Z.of_nat k)))
    as (u & acts & Hu & Hcall & _ & Hreq & Hsl).
  - reflexivity.
  - cbn. lia.
  - intros j Hj. destruct j as [|j]; [eexists; reflexivity | lia].
  - intros j Hj. destruct j as [|j]; [reflexivity | lia].
  - reflexivity.
  - injection Hu as <-. exists acts. auto.
Defined.

Lemma null_error_member_is_data_but_unhealthy_witness :
  fst (_make_request sample_pow sample_client (_get_rpc_url sample_client BTC)
         (rpc_payload "1.0" "getblockchaininfo")
         (fun _ => answering 200 block_info_result)) = inl block_info_result /\
  fst (health_check sample_client BTC (answering 200 block_info_result)) = false.
Proof.
  apply (null_error_member_is_data_but_unhealthy sample_pow sample_client BTC
           (rpc_payload "1.0" "getblockchaininfo")
           (fun _ => answering 200 block_info_result) block_info_result);
    try reflexivity.
  cbn. lia.
Defined.

Lemma sol_get_balance_fallback_and_failure_witness :
  fst (sol_get_balance sample_pow (full_client 3) "So1ana"
         (fun _ => answering 200 [("jsonrpc", JStr "2.0"); ("result", JNull)]))
  = inr (OtherException "AttributeError") /\
  fst (sol_get_balance sample_pow (full_client 3) "So1ana"
         (fun _ => answering 200 [("jsonrpc", JStr "2.0"); ("id", JNum 1)]))
  = inl (JNum 0).
Proof.
  split.
  - apply (sol_get_balance_fallback_and_failure sample_pow (full_client 3) "So1ana"
             (fun _ => answering 200 [("jsonrpc", JStr "2.0"); ("result", JNull)])
             [("jsonrpc", JStr "2.0"); ("result", JNull)]);
      try reflexivity. cbn. lia.
  - apply (sol_get_balance_fallback_and_failure sample_pow (full_client 3) "So1ana"
             (fun _ => answering 200 [("jsonrpc", JStr "2.0"); ("id", JNum 1)])
             [("jsonrpc", JStr "2.0"); ("id", JNum 1)]);
      try reflexivity. cbn. lia.
Defined.

End RpcRequestsInstances.

(** ** Monitoring: health status and the snapshot file *)

Section MonitoringProps.
Import Monitoring.

Lemma Qle_bool_mono (k r1 r2 : Q) :
  Qle r1 r2 -> Qle_bool k r1 = true -> Qle_bool k r2 = true.
Proof.
  intros Hle H. apply Qle_bool_iff in H. apply Qle_bool_iff.
  eapply Qle_trans; eassumption.
Qed.

(** The health status is monotone in its inputs: a success rate at least as
    high together with a dead-letter count at most as high never gives a
    worse status; the failure count passed in has no influence at all. *)
Theorem health_status_is_monotone
    (rate1 rate2 : Q) (failures1 failures2 dlq1 dlq2 : Z) :
  Qle rate1 rate2 ->
  dlq2 <= dlq1 ->
  (severity (_determine_health_status rate2 failures2 dlq2) <=
   severity (_determine_health_status rate1 failures1 dlq1))%nat.
Proof.
  intros Hr Hd. unfold _determine_health_status.
  destruct (Qle_bool (80 # 1) rate1) eqn:H80.
  - rewrite (Qle_bool_mono _ _ _ Hr H80). cbn [negb orb].
    destruct (Z.ltb_spec 10 dlq1) as [Hbig | Hsmall].
    + destruct (Z.ltb 10 dlq2); [cbn; lia|].
      destruct (negb _ || _); cbn; lia.
    + replace (Z.ltb 10 dlq2) with false by (symmetry; apply Z.ltb_ge; lia).
      destruct (Qle_bool (95 # 1) rate1) eqn:H95.
      * rewrite (Qle_bool_mono _ _ _ Hr H95). cbn [negb orb].
        destruct (Z.ltb_spec 5 dlq1).
        -- destruct (Z.ltb 5 dlq2); cbn; lia.
        -- replace (Z.ltb 5 dlq2) with false by (symmetry; apply Z.ltb_ge; lia).
           cbn. lia.
      * cbn [negb orb]. destruct (negb _ || _); cbn; lia.
  - cbn [negb orb]. destruct (negb _ || _); [cbn; lia|].
    destruct (negb _ || _); cbn; lia.
Qed.

(** Saving a snapshot, when the write goes through, leaves a file with at
    most one hundred snapshots whatever it held before; the snapshot saved
    is the one [get_latest_snapshot] returns, and what was kept is the end
    of the old list: only the oldest entries are dropped. *)
Theorem saved_snapshot_is_latest_and_file_is_bounded
    (now now' : string) (snapshot : MetricsSnapshot) (st : State) :
  next_write_ok (io_faults st) = true ->
  let st' := save_snapshot now snapshot st in
  get_latest_snapshot now' st' = Some snapshot /\
  (length (snapshots (_load_metrics now' st')) <= 100)%nat /\
  exists dropped,
    (snapshots (_load_metrics now st) ++ [snapshot])%list =
    (dropped ++ snapshots (_load_metrics now' st'))%list.
Proof.
  intros Hw st'.
  set (old := snapshots (_load_metrics now st)).
  assert (Hfile : snapshots (_load_metrics now' st') =
                  if Nat.ltb 100 (length (old ++ [snapshot]))
                  then drop (length (old ++ [snapshot]) - 100) (old ++ [snapshot])
                  else (old ++ [snapshot])%list).
  { unfold st', save_snapshot, _save_metrics. fold old.
    destruct (io_faults st) as [|[] fs]; cbn in Hw; try discriminate; reflexivity. }
  unfold get_latest_snapshot. rewrite Hfile.
  destruct (Nat.ltb_spec 100 (length (old ++ [snapshot]))) as [Hbig | Hsmall].
  - rewrite length_app in *. cbn [length] in *.
    split; [|split].
    + replace (length old + 1 - 100)%nat with (length old - 99)%nat by lia.
      rewrite drop_app_le by lia. apply last_snoc.
    + rewrite length_drop, length_app. cbn. lia.
    + exists (take (length old + 1 - 100) (old ++ [snapshot])).
      symmetry. apply take_drop.
  - split; [apply last_snoc|]. split; [exact Hsmall|].
    exists []. reflexivity.
Qed.

End MonitoringProps.

Section MonitoringInstances.
Import Monitoring.

Lemma health_status_is_monotone_witness :
  (severity (_determine_health_status (97 # 1) 0 6) <=
   severity (_determine_health_status (90 # 1) 3 11))%nat.
Proof.
  apply (health_status_is_monotone (90 # 1) (97 # 1) 3 0 11 6).
  - discriminate.
  - lia.
Defined.

Lemma saved_snapshot_is_latest_and_file_is_bounded_witness :
  let st' := save_snapshot "t1" (idle_snapshot "t1") (metrics_with 100) in
  get_latest_snapshot "t2" st' = Some (idle_snapshot "t1") /\
  (length (snapshots (_load_metrics "t2" st')) <= 100)%nat.
Proof.
  intros st'.
  destruct (saved_snapshot_is_latest_and_file_is_bounded "t1" "t2"
              (idle_snapshot "t1") (metrics_with 100)) as (Hl & Hb & _).
  - reflexivity.
  - split; [exact Hl | exact Hb].
Defined.

End MonitoringInstances.
